(** * Fund versus personal account: the comparison engine

    A shallow embedding of [src/src/models.py] and [src/src/calculator.py],
    and of the numbers behind the heat map of [src/src/presentation/charts.py].

    Numbers.  The program computes on Python floats.  The embedding reads every
    float as a real number: rounding, overflow and NaN are not modelled.  What
    is modelled of the Python runtime is what can change the control flow of
    the program on exact numbers:
    - [/] raises [ZeroDivisionError] on a zero divisor;
    - [**] raises [ZeroDivisionError] on a zero base with a negative exponent;
    - [**] with a negative base and a fractional exponent leaves the floats
      (Python answers with a complex number); the embedding stops there with
      [ComplexResult].
    Integers ([years], [months], year indices) are [Z]. *)

From Stdlib Require Import Reals ZArith List String DecimalString Bool Lia Lra.
Import ListNotations.

Open Scope R_scope.

(** ** Results and exceptions *)

Inductive exn : Type :=
| ZeroDivisionError
| ComplexResult
| KeyError.

Inductive result (A : Type) : Type :=
| Ok (a : A)
| Raise (e : exn).

Arguments Ok {A} a.
Arguments Raise {A} e.

Definition bind {A B : Type} (m : result A) (k : A -> result B) : result B :=
  match m with
  | Ok a => k a
  | Raise e => Raise e
  end.

Notation "x <- m ;; k" := (bind m (fun x => k))
  (at level 61, m at next level, right associativity).

(** ** Python arithmetic on exact numbers *)

Module Py.

(** [a > b], [a >= b], [a <= b] and [a == b] on floats. *)
Definition gt (a b : R) : bool := if Rlt_dec b a then true else false.
Definition ge (a b : R) : bool := if Rle_dec b a then true else false.
Definition le (a b : R) : bool := if Rle_dec a b then true else false.
Definition eq (a b : R) : bool := if Req_dec_T a b then true else false.

(** [a / b]. *)
Definition true_div (a b : R) : result R :=
  if Req_dec_T b 0 then Raise ZeroDivisionError else Ok (a / b).

(** [x ** n] for a float [x] and an int [n]. *)
Definition pow_int (x : R) (n : Z) : result R :=
  if (0 <=? n)%Z then Ok (x ^ Z.to_nat n)
  else if Req_dec_T x 0 then Raise ZeroDivisionError
       else Ok (/ (x ^ Z.to_nat (- n))).

(** [x ** y] for two floats. *)
Definition pow_float (x y : R) : result R :=
  if Rlt_dec 0 x then Ok (Rpower x y)
  else if Req_dec_T x 0 then
         if Rlt_dec 0 y then Ok 0
         else if Req_dec_T y 0 then Ok 1
              else Raise ZeroDivisionError
       else if Req_dec_T y (IZR (Int_part y)) then pow_int x (Int_part y)
            else Raise ComplexResult.

(** [range(lo, hi)]. *)
Definition range (lo hi : Z) : list Z :=
  map (fun k => (lo + Z.of_nat k)%Z) (seq 0 (Z.to_nat (hi - lo))).

(** [for x in xs: s = body(x, s)], where the body may raise. *)
Fixpoint for_each {X S : Type} (xs : list X) (body : X -> S -> result S) (s : S)
  : result S :=
  match xs with
  | [] => Ok s
  | x :: rest => s' <- body x s ;; for_each rest body s'
  end.

(** [for x in xs: if test(x): return x] followed by [return None]. *)
Fixpoint first_hit (xs : list Z) (test : Z -> result bool) : result (option Z) :=
  match xs with
  | [] => Ok None
  | x :: rest => hit <- test x ;; if hit then Ok (Some x) else first_hit rest test
  end.

End Py.

(** ** models.py *)

Record InvestmentInputs : Type := {
  principal : R;
  monthly_contribution : R;
  keren_gross_return : R;
  keren_mgmt_fee : R;
  keren_return_is_net : bool;
  personal_return : R;
  capital_gains_tax : R;
  annual_tax_drag : R;
  include_tax_drag : bool;
  horizon_years : Z;
  keren_lockup_years : Z
}.

Definition get_keren_net_return (self : InvestmentInputs) : R :=
  if keren_return_is_net self then keren_gross_return self
  else (1 + keren_gross_return self) * (1 - keren_mgmt_fee self) - 1.

Definition get_personal_effective_return (self : InvestmentInputs) : R :=
  if include_tax_drag self then personal_return self - annual_tax_drag self
  else personal_return self.

Record YearlyResult : Type := {
  year : Z;
  keren_fv : R;
  personal_fv_pretax : R;
  personal_fv_aftertax : R;
  keren_wins : bool
}.

Definition difference (self : YearlyResult) : R :=
  personal_fv_aftertax self - keren_fv self.

Definition difference_pct (self : YearlyResult) : result R :=
  if Py.eq (keren_fv self) 0 then Ok 0
  else q <- Py.true_div (personal_fv_aftertax self - keren_fv self) (keren_fv self) ;;
       Ok (q * 100).

Record ComparisonResult : Type := {
  inputs : InvestmentInputs;
  yearly_results : list YearlyResult;
  breakeven_year : option Z;
  keren_net_return : R;
  personal_effective_return : R
}.

(** ** calculator.py: valuation primitives *)

Definition calculate_keren_fv
  (principal net_return : R) (years : Z) (monthly_contribution : R) : result R :=
  growth <- Py.pow_int (1 + net_return) years ;;
  let fv_lump := principal * growth in
  fv_annuity <-
    (if Py.gt monthly_contribution 0 && (0 <? years)%Z then
       root <- Py.pow_float (1 + net_return) (1 / 12) ;;
       let monthly_rate := root - 1 in
       let months := (years * 12)%Z in
       g <- Py.pow_int (1 + monthly_rate) months ;;
       q <- Py.true_div (g - 1) monthly_rate ;;
       Ok (monthly_contribution * q)
     else Ok 0) ;;
  Ok (fv_lump + fv_annuity).

Definition calculate_personal_fv_pretax
  (principal return_rate : R) (years : Z) (monthly_contribution : R) : result R :=
  growth <- Py.pow_int (1 + return_rate) years ;;
  let fv_lump := principal * growth in
  fv_annuity <-
    (if Py.gt monthly_contribution 0 && (0 <? years)%Z then
       root <- Py.pow_float (1 + return_rate) (1 / 12) ;;
       let monthly_rate := root - 1 in
       let months := (years * 12)%Z in
       g <- Py.pow_int (1 + monthly_rate) months ;;
       q <- Py.true_div (g - 1) monthly_rate ;;
       Ok (monthly_contribution * q)
     else Ok 0) ;;
  Ok (fv_lump + fv_annuity).

(** One pass of the loop over the monthly contributions. *)
Definition contribution_step
  (years : Z) (tax_rate monthly_contribution monthly_rate : R)
  (month : Z) (fv_contributions : R) : result R :=
  let months_growth := (years * 12 - month + 1)%Z in
  g <- Py.pow_int (1 + monthly_rate) months_growth ;;
  let contribution_fv := monthly_contribution * g in
  let contribution_gain := contribution_fv - monthly_contribution in
  let contribution_after_tax :=
    monthly_contribution + contribution_gain * (1 - tax_rate) in
  Ok (fv_contributions + contribution_after_tax).

Definition calculate_personal_fv_aftertax
  (principal return_rate : R) (years : Z) (tax_rate monthly_contribution : R)
  : result R :=
  fv_lump <-
    (if Py.gt principal 0 then
       growth <- Py.pow_int (1 + return_rate) years ;;
       let fv_lump_pretax := principal * growth in
       let gain_lump := fv_lump_pretax - principal in
       Ok (principal + gain_lump * (1 - tax_rate))
     else Ok 0) ;;
  fv_contributions <-
    (if Py.gt monthly_contribution 0 && (0 <? years)%Z then
       root <- Py.pow_float (1 + return_rate) (1 / 12) ;;
       let monthly_rate := root - 1 in
       Py.for_each (Py.range 1 (years * 12 + 1))
         (contribution_step years tax_rate monthly_contribution monthly_rate) 0
     else Ok 0) ;;
  Ok (fv_lump + fv_contributions).

(** ** calculator.py: break-even search *)

(** The body of the search loop: does the personal path reach the fund at
    [year]?  [keren_at_lockup] is the fund value withdrawn at the lockup. *)
Definition personal_reaches_keren
  (principal keren_net_return personal_return tax_rate monthly_contribution : R)
  (keren_lockup_years : Z) (keren_at_lockup : R) (year : Z) : result bool :=
  keren_fv <- calculate_keren_fv principal keren_net_return year monthly_contribution ;;
  let years_since_lockup := (year - keren_lockup_years)%Z in
  lump_sum_pretax <-
    calculate_personal_fv_pretax keren_at_lockup personal_return years_since_lockup 0 ;;
  let lump_sum_gain := lump_sum_pretax - keren_at_lockup in
  let lump_sum_aftertax := keren_at_lockup + lump_sum_gain * (1 - tax_rate) in
  contributions_aftertax <-
    calculate_personal_fv_aftertax 0 personal_return years_since_lockup
      tax_rate monthly_contribution ;;
  let personal_fv := lump_sum_aftertax + contributions_aftertax in
  Ok (Py.ge personal_fv keren_fv).

Definition find_breakeven_year
  (principal keren_net_return personal_return tax_rate monthly_contribution : R)
  (max_years keren_lockup_years : Z) : result (option Z) :=
  keren_at_lockup <-
    calculate_keren_fv principal keren_net_return keren_lockup_years
      monthly_contribution ;;
  Py.first_hit (Py.range (keren_lockup_years + 1) (max_years + 1))
    (personal_reaches_keren principal keren_net_return personal_return tax_rate
       monthly_contribution keren_lockup_years keren_at_lockup).

(** ** calculator.py: required return *)

(** A float that may be [float("inf")]. *)
Inductive xfloat : Type :=
| Finite (x : R)
| Infinity.

Definition calculate_required_return
  (keren_net_return tax_rate : R) (years : Z) : result xfloat :=
  keren_fv_factor <- Py.pow_int (1 + keren_net_return) years ;;
  let numerator := keren_fv_factor - tax_rate in
  let denominator := 1 - tax_rate in
  if Py.le denominator 0 || Py.le numerator 0 then Ok Infinity
  else
    q <- Py.true_div numerator denominator ;;
    e <- Py.true_div 1 (IZR years) ;;
    root <- Py.pow_float q e ;;
    Ok (Finite (root - 1)).

(** ** calculator.py: the orchestrator *)

(** The state of the loop of [run_comparison]: the results so far and the
    break-even year so far. *)
Definition comparison_state : Type := (list YearlyResult * option Z)%type.

Definition comparison_step
  (inputs : InvestmentInputs) (keren_net_return personal_effective_return : R)
  (lockup : Z) (keren_at_lockup : R) (year : Z) (st : comparison_state)
  : result comparison_state :=
  let yearly_results := fst st in
  let breakeven_year := snd st in
  keren_fv <-
    calculate_keren_fv (principal inputs) keren_net_return year
      (monthly_contribution inputs) ;;
  personal <-
    (if (year <=? lockup)%Z then Ok (keren_fv, keren_fv)
     else
       let years_since_lockup := (year - lockup)%Z in
       lump_sum_pretax <-
         calculate_personal_fv_pretax keren_at_lockup personal_effective_return
           years_since_lockup 0 ;;
       contributions_pretax <-
         calculate_personal_fv_pretax 0 personal_effective_return
           years_since_lockup (monthly_contribution inputs) ;;
       let personal_fv_pretax := lump_sum_pretax + contributions_pretax in
       let lump_sum_gain := lump_sum_pretax - keren_at_lockup in
       let lump_sum_aftertax :=
         keren_at_lockup + lump_sum_gain * (1 - capital_gains_tax inputs) in
       contributions_aftertax <-
         calculate_personal_fv_aftertax 0 personal_effective_return
           years_since_lockup (capital_gains_tax inputs)
           (monthly_contribution inputs) ;;
       let personal_fv_aftertax := lump_sum_aftertax + contributions_aftertax in
       Ok (personal_fv_pretax, personal_fv_aftertax)) ;;
  let personal_fv_pretax := fst personal in
  let personal_fv_aftertax := snd personal in
  let keren_wins := Py.gt keren_fv personal_fv_aftertax in
  let yearly_results :=
    yearly_results ++
      [ {| year := year;
           keren_fv := keren_fv;
           personal_fv_pretax := personal_fv_pretax;
           personal_fv_aftertax := personal_fv_aftertax;
           keren_wins := keren_wins |} ] in
  let breakeven_year :=
    match breakeven_year with
    | None => if negb keren_wins && (lockup <? year)%Z then Some year else None
    | Some y => Some y
    end in
  Ok (yearly_results, breakeven_year).

Definition run_comparison (inputs : InvestmentInputs) : result ComparisonResult :=
  let keren_net_return := get_keren_net_return inputs in
  let personal_effective_return := get_personal_effective_return inputs in
  let lockup := keren_lockup_years inputs in
  keren_at_lockup <-
    calculate_keren_fv (principal inputs) keren_net_return lockup
      (monthly_contribution inputs) ;;
  st <-
    Py.for_each (Py.range 1 (horizon_years inputs + 1))
      (comparison_step inputs keren_net_return personal_effective_return lockup
         keren_at_lockup)
      ([], None) ;;
  Ok {| inputs := inputs;
        yearly_results := fst st;
        breakeven_year := snd st;
        keren_net_return := keren_net_return;
        personal_effective_return := personal_effective_return |}.

(** ** calculator.py: the sensitivity matrix *)

(** *** Formatting of floats *)

Module Fmt.

Import DecimalString.
Local Open Scope string_scope.

(** Rounding to the nearest integer, ties to even, as the [f] format does. *)
Definition round_half_even (x : R) : Z :=
  let n := Int_part x in
  let f := frac_part x in
  if Rlt_dec f (1 / 2) then n
  else if Rlt_dec (1 / 2) f then (n + 1)%Z
       else if Z.even n then n else (n + 1)%Z.

Definition digits (n : Z) : string := NilZero.string_of_int (Z.to_int n).

(** [f"{x:.0f}"]. *)
Definition fixed0 (x : R) : string :=
  let n := round_half_even x in
  if (n =? 0)%Z && Py.gt 0 x then "-0" else digits n.

(** [f"{x:.1f}"]. *)
Definition fixed1 (x : R) : string :=
  let a := Z.abs (round_half_even (x * 10)) in
  (if Py.gt 0 x then "-" else "") ++ digits (a / 10) ++ "." ++ digits (a mod 10).

End Fmt.

(** *** Rows and frames

    A row of the matrix is a Python dict and the matrix a pandas [DataFrame].
    Of pandas the embedding keeps what [generate_sensitivity_matrix] uses: the
    frame made from a list of records, and [set_index].  The order of the keys
    decides the order of the columns, so a dict is an association list. *)

(** What a cell of the matrix can hold; [CNaN] is what the frame constructor
    puts where a record has no value for a column. *)
Inductive cell : Type :=
| CInt (n : Z)
| CStr (s : string)
| CNaN.

(** A Python dict with string keys: insertion ordered, one value per key. *)
Definition dict : Type := list (string * cell).

(** [d[k] = v]: an existing key keeps its place and takes the new value. *)
Fixpoint dict_set (d : dict) (k : string) (v : cell) : dict :=
  match d with
  | [] => [(k, v)]
  | (k', v') :: rest =>
      if String.eqb k k' then (k, v) :: rest else (k', v') :: dict_set rest k v
  end.

Definition dict_get (d : dict) (k : string) : cell :=
  match find (fun kv => String.eqb k (fst kv)) d with
  | Some kv => snd kv
  | None => CNaN
  end.

Definition dict_keys (d : dict) : list string := map fst d.

(** A data frame: row labels, column labels, and the cells row by row. *)
Record DataFrame : Type := {
  index : list cell;
  columns : list string;
  values : list (list cell)
}.

Definition cells (df : DataFrame) : list cell := List.concat (values df).

Definition add_column (cols : list string) (k : string) : list string :=
  if existsb (String.eqb k) cols then cols else cols ++ [k].

(** [pd.DataFrame(data)] for a list of records: the columns are the keys in the
    order they first appear, the row labels are 0, 1, ... *)
Definition frame_of_records (data : list dict) : DataFrame :=
  let cols := fold_left (fun cols row => fold_left add_column (dict_keys row) cols)
                data [] in
  {| index := map (fun i => CInt (Z.of_nat i)) (seq 0 (List.length data));
     columns := cols;
     values := map (fun row => map (dict_get row) cols) data |}.

Fixpoint position (k : string) (cols : list string) : option nat :=
  match cols with
  | [] => None
  | c :: rest =>
      if String.eqb k c then Some O else option_map S (position k rest)
  end.

Fixpoint drop_nth {A : Type} (i : nat) (l : list A) : list A :=
  match l, i with
  | [], _ => []
  | _ :: rest, O => rest
  | x :: rest, S j => x :: drop_nth j rest
  end.

(** [df.set_index(key)]: the column becomes the row labels and leaves the
    cells; a key that is no column raises [KeyError]. *)
Definition set_index (df : DataFrame) (key : string) : result DataFrame :=
  match position key (columns df) with
  | None => Raise KeyError
  | Some i =>
      Ok {| index := map (fun row => nth i row CNaN) (values df);
            columns := drop_nth i (columns df);
            values := map (drop_nth i) (values df) |}
  end.

(** *** generate_sensitivity_matrix *)

(** [be_year if be_year else ">50"]: [None] and [0] are falsy. *)
Definition breakeven_cell (be_year : option Z) : cell :=
  match be_year with
  | Some y => if (y =? 0)%Z then CStr ">50" else CInt y
  | None => CStr ">50"
  end.

Definition tax_label (tr : R) : string :=
  ("Tax " ++ Fmt.fixed0 (tr * 100) ++ "%")%string.

Definition return_label (pr : R) : string :=
  (Fmt.fixed1 (pr * 100) ++ "%")%string.

Definition sensitivity_row
  (principal keren_net_return : R) (tax_rates : list R)
  (monthly_contribution : R) (max_years keren_lockup_years : Z) (pr : R)
  : result dict :=
  Py.for_each tax_rates
    (fun tr row =>
       be_year <-
         find_breakeven_year principal keren_net_return pr tr
           monthly_contribution max_years keren_lockup_years ;;
       Ok (dict_set row (tax_label tr) (breakeven_cell be_year)))
    [("Personal Return"%string, CStr (return_label pr))].

Definition generate_sensitivity_matrix
  (principal keren_net_return : R) (personal_returns tax_rates : list R)
  (monthly_contribution : R) (max_years keren_lockup_years : Z)
  : result DataFrame :=
  data <-
    Py.for_each personal_returns
      (fun pr data =>
         row <-
           sensitivity_row principal keren_net_return tax_rates
             monthly_contribution max_years keren_lockup_years pr ;;
         Ok (data ++ [row]))
      [] ;;
  set_index (frame_of_records data) "Personal Return".

(** * Notions the properties are stated with *)

(** The sum of [f] over a list. *)
Definition Rsum {X : Type} (f : X -> R) (xs : list X) : R :=
  fold_right (fun x acc => f x + acc) 0 xs.

(** What the contribution of [month] adds to the post-tax value: the
    contribution, and its gain after tax. *)
Definition contribution_after_tax
  (years : Z) (tax_rate monthly_contribution monthly_rate : R) (month : Z) : R :=
  monthly_contribution +
  (monthly_contribution * (1 + monthly_rate) ^ Z.to_nat (years * 12 - month + 1)
   - monthly_contribution) * (1 - tax_rate).

(** The first year after the lockup, in a yearly series, at which the fund
    does not win. *)
Definition first_personal_year (lockup : Z) (series : list YearlyResult) : option Z :=
  option_map year
    (find (fun yr => (lockup <? year yr)%Z && negb (keren_wins yr)) series).

(** The lockup invariant of one yearly result. *)
Definition locked (lockup : Z) (yr : YearlyResult) : Prop :=
  (year yr <= lockup)%Z ->
  personal_fv_pretax yr = keren_fv yr /\ personal_fv_aftertax yr = keren_fv yr.

(** The scenario of the specification: nothing paid in at the start, 1571 a
    month, a fund at 8% gross with a fee of 0.35%, a personal return of 10%,
    25% tax, twenty years, ten of them locked. *)
Definition scenario : InvestmentInputs :=
  {| principal := 0;
     monthly_contribution := 1571;
     keren_gross_return := 0.08;
     keren_mgmt_fee := 0.0035;
     keren_return_is_net := false;
     personal_return := 0.10;
     capital_gains_tax := 0.25;
     annual_tax_drag := 0.003;
     include_tax_drag := false;
     horizon_years := 20;
     keren_lockup_years := 10 |}.

(** What a cell of the sensitivity matrix may hold: a year from 1 to the
    search ceiling, or the token for no break-even within the ceiling. *)
Definition cell_ok (max_years : Z) (c : cell) : Prop :=
  c = CStr ">50" \/ exists n : Z, c = CInt n /\ (1 <= n <= max_years)%Z.

(** A row of the sensitivity matrix as it should be: the label of the
    personal return, then one cell per tax rate. *)
Definition row_shape (tax_rates : list R) (max_years : Z) (row : dict) : Prop :=
  exists (v : cell) (cs : list cell),
    List.length cs = List.length tax_rates /\ Forall (cell_ok max_years) cs /\
    row = ("Personal Return"%string, v) :: combine (map tax_label tax_rates) cs.

(** * More of the program *)

(** ** models.py: the summary of a comparison *)

(** [xs[-1]], for a list that may be empty. *)
Definition last_item {A : Type} (xs : list A) : option A :=
  nth_error xs (List.length xs - 1).

(** [a < b] on floats. *)
Definition float_lt (a b : R) : bool := if Rlt_dec a b then true else false.

(** [if not self.yearly_results: return self.inputs.principal], and the last
    result otherwise. *)
Definition final_keren_fv (self : ComparisonResult) : R :=
  match last_item (yearly_results self) with
  | None => principal (inputs self)
  | Some yr => keren_fv yr
  end.

Definition final_personal_fv (self : ComparisonResult) : R :=
  match last_item (yearly_results self) with
  | None => principal (inputs self)
  | Some yr => personal_fv_aftertax yr
  end.

Definition final_difference (self : ComparisonResult) : R :=
  final_personal_fv self - final_keren_fv self.

Definition winner_at_horizon (self : ComparisonResult) : string :=
  if Py.gt (final_difference self) 0 then "Personal Investment"
  else if float_lt (final_difference self) 0 then "Keren Hishtalmut"
       else "Tie".

(** ** calculator.py: the table of required returns *)

Module RequiredReturnResult.

Record t : Type := {
  horizon_years : Z;
  keren_net_return : R;
  tax_rate : R;
  required_personal_return : xfloat;
  alpha_required : xfloat
}.

End RequiredReturnResult.

(** [a - b] where [a] may be [float("inf")] and [b] is finite. *)
Definition xfloat_sub (a : xfloat) (b : R) : xfloat :=
  match a with
  | Finite x => Finite (x - b)
  | Infinity => Infinity
  end.

Definition generate_required_return_table
  (keren_net_return tax_rate : R) (horizons : list Z)
  : result (list RequiredReturnResult.t) :=
  Py.for_each horizons
    (fun years results =>
       required <- calculate_required_return keren_net_return tax_rate years ;;
       Ok (results ++
             [ {| RequiredReturnResult.horizon_years := years;
                  RequiredReturnResult.keren_net_return := keren_net_return;
                  RequiredReturnResult.tax_rate := tax_rate;
                  RequiredReturnResult.required_personal_return := required;
                  RequiredReturnResult.alpha_required :=
                    xfloat_sub required keren_net_return |} ]))
    [].

(** ** presentation/charts.py: the numbers of the heat map

    Of [create_sensitivity_heatmap] the embedding keeps what is computed
    before the figure is drawn: the matrix of break-even years and the text
    written on each of its cells. *)

(** [be_year if be_year else 50]. *)
Definition heatmap_value (be_year : option Z) : Z :=
  match be_year with
  | Some y => if (y =? 0)%Z then 50%Z else y
  | None => 50%Z
  end.

(** [if xs is None: xs = default]. *)
Definition or_default {A : Type} (xs : option A) (default : A) : A :=
  match xs with
  | None => default
  | Some given => given
  end.

Definition default_personal_returns : list R :=
  [0.08; 0.09; 0.10; 0.11; 0.12; 0.13; 0.14; 0.15].

Definition default_tax_rates : list R := [0.15; 0.20; 0.25; 0.30; 0.35].

Definition heatmap_matrix
  (principal keren_net_return monthly_contribution : R)
  (personal_returns tax_rates : option (list R)) (keren_lockup_years : Z)
  : result (list (list Z)) :=
  let personal_returns := or_default personal_returns default_personal_returns in
  let tax_rates := or_default tax_rates default_tax_rates in
  Py.for_each personal_returns
    (fun pr matrix =>
       row <-
         Py.for_each tax_rates
           (fun tr row =>
              be_year <-
                find_breakeven_year principal keren_net_return pr tr
                  monthly_contribution 50 keren_lockup_years ;;
              Ok (row ++ [heatmap_value be_year]))
           [] ;;
       Ok (matrix ++ [row]))
    [].

(** [str(val) if val < 50 else ">50"]. *)
Definition heatmap_text (val : Z) : string :=
  if (val <? 50)%Z then Fmt.digits val else ">50".

(** * Notions the further properties are stated with *)

(** What has been paid in after [years] years. *)
Definition paid_in (principal monthly_contribution : R) (years : Z) : R :=
  principal + monthly_contribution * IZR (12 * years).

(** What one result of the yearly series records: the flag compares the two
    values, and the fund value is the valuation of the fund at that year. *)
Definition recorded (inp : InvestmentInputs) (res : YearlyResult) : Prop :=
  keren_wins res = Py.gt (keren_fv res) (personal_fv_aftertax res) /\
  calculate_keren_fv (principal inp) (get_keren_net_return inp) (year res)
    (monthly_contribution inp) = Ok (keren_fv res).

(** Two small runs without monthly contributions: 1000 paid in at the start,
    a fund at 5% net, 25% tax, one locked year out of two; the personal
    return is 10% in the first and 0% in the second. *)
Definition quick_scenario : InvestmentInputs :=
  {| principal := 1000;
     monthly_contribution := 0;
     keren_gross_return := 0.05;
     keren_mgmt_fee := 0;
     keren_return_is_net := true;
     personal_return := 0.10;
     capital_gains_tax := 0.25;
     annual_tax_drag := 0;
     include_tax_drag := false;
     horizon_years := 2;
     keren_lockup_years := 1 |}.

Definition slow_scenario : InvestmentInputs :=
  {| principal := 1000;
     monthly_contribution := 0;
     keren_gross_return := 0.05;
     keren_mgmt_fee := 0;
     keren_return_is_net := true;
     personal_return := 0;
     capital_gains_tax := 0.25;
     annual_tax_drag := 0;
     include_tax_drag := false;
     horizon_years := 2;
     keren_lockup_years := 1 |}.

(** A horizon that ends within the lockup. *)
Definition short_scenario : InvestmentInputs :=
  {| principal := 1000;
     monthly_contribution := 0;
     keren_gross_return := 0.05;
     keren_mgmt_fee := 0;
     keren_return_is_net := true;
     personal_return := 0.10;
     capital_gains_tax := 0.25;
     annual_tax_drag := 0;
     include_tax_drag := false;
     horizon_years := 5;
     keren_lockup_years := 6 |}.

(** The scenario of the specification with a personal return of 0%. *)
Definition flat_scenario : InvestmentInputs :=
  {| principal := 0;
     monthly_contribution := 1571;
     keren_gross_return := 0.08;
     keren_mgmt_fee := 0.0035;
     keren_return_is_net := false;
     personal_return := 0;
     capital_gains_tax := 0.25;
     annual_tax_drag := 0.003;
     include_tax_drag := false;
     horizon_years := 20;
     keren_lockup_years := 10 |}.

(** * Properties *)

(** ** The Python primitives *)

Section Primitives.

Lemma gt_true (a b : R) : b < a -> Py.gt a b = true.
Proof. intros H. unfold Py.gt. destruct (Rlt_dec b a); [reflexivity | contradiction]. Qed.

Lemma gt_false (a b : R) : a <= b -> Py.gt a b = false.
Proof. intros H. unfold Py.gt. destruct (Rlt_dec b a); [lra | reflexivity]. Qed.

Lemma ge_true (a b : R) : b <= a -> Py.ge a b = true.
Proof. intros H. unfold Py.ge. destruct (Rle_dec b a); [reflexivity | contradiction]. Qed.

Lemma ge_false (a b : R) : a < b -> Py.ge a b = false.
Proof. intros H. unfold Py.ge. destruct (Rle_dec b a); [lra | reflexivity]. Qed.

Lemma le_true (a b : R) : a <= b -> Py.le a b = true.
Proof. intros H. unfold Py.le. destruct (Rle_dec a b); [reflexivity | contradiction]. Qed.

Lemma le_false (a b : R) : b < a -> Py.le a b = false.
Proof. intros H. unfold Py.le. destruct (Rle_dec a b); [lra | reflexivity]. Qed.

Lemma eq_true (a b : R) : a = b -> Py.eq a b = true.
Proof. intros H. unfold Py.eq. destruct (Req_dec_T a b); [reflexivity | contradiction]. Qed.

Lemma eq_false (a b : R) : a <> b -> Py.eq a b = false.
Proof. intros H. unfold Py.eq. destruct (Req_dec_T a b); [contradiction | reflexivity]. Qed.

(** [not (a > b)] is [b >= a]: the two ways the program asks whether the
    personal path has caught up. *)
Lemma negb_gt_ge (a b : R) : negb (Py.gt a b) = Py.ge b a.
Proof.
  unfold Py.gt, Py.ge.
  destruct (Rlt_dec b a), (Rle_dec a b); simpl; try reflexivity; lra.
Qed.

Lemma true_div_ok (a b : R) : b <> 0 -> Py.true_div a b = Ok (a / b).
Proof. intros H. unfold Py.true_div. destruct (Req_dec_T b 0); [contradiction | reflexivity]. Qed.

Lemma true_div_zero (a b : R) : b = 0 -> Py.true_div a b = Raise ZeroDivisionError.
Proof. intros H. unfold Py.true_div. destruct (Req_dec_T b 0); [reflexivity | contradiction]. Qed.

Lemma pow_int_nonneg (x : R) (n : Z) :
  (0 <= n)%Z -> Py.pow_int x n = Ok (x ^ Z.to_nat n).
Proof.
  intros H. unfold Py.pow_int.
  destruct (Z.leb_spec 0 n); [reflexivity | lia].
Qed.

Lemma pow_float_pos (x y : R) : 0 < x -> Py.pow_float x y = Ok (Rpower x y).
Proof. intros H. unfold Py.pow_float. destruct (Rlt_dec 0 x); [reflexivity | contradiction]. Qed.

Lemma pow_float_zero (y : R) : 0 < y -> Py.pow_float 0 y = Ok 0.
Proof.
  intros H. unfold Py.pow_float.
  destruct (Rlt_dec 0 0); [lra |].
  destruct (Req_dec_T 0 0); [| lra].
  destruct (Rlt_dec 0 y); [reflexivity | contradiction].
Qed.

(** The twelfth root of one is one: a zero annual rate is a zero monthly
    rate. *)
Lemma pow_float_one (y : R) : Py.pow_float 1 y = Ok 1.
Proof.
  rewrite pow_float_pos by lra. f_equal.
  unfold Rpower. rewrite ln_1, Rmult_0_r. apply exp_0.
Qed.

(** A root taken [n] times over gives the radicand back. *)
Lemma root_pow (x : R) (n : nat) :
  0 < x -> (0 < n)%nat -> Rpower x (1 / INR n) ^ n = x.
Proof.
  intros Hx Hn.
  rewrite <- Rpower_pow by (unfold Rpower; apply exp_pos).
  rewrite Rpower_mult.
  replace (1 / INR n * INR n) with 1.
  - apply Rpower_1; assumption.
  - field. apply not_0_INR. lia.
Qed.

Lemma root_pow_mul (x : R) (n k : nat) :
  0 < x -> (0 < n)%nat -> Rpower x (1 / INR n) ^ (k * n) = x ^ k.
Proof.
  intros Hx Hn.
  rewrite Nat.mul_comm, pow_mult, root_pow by assumption. reflexivity.
Qed.

Lemma in_range (lo hi x : Z) : In x (Py.range lo hi) <-> (lo <= x < hi)%Z.
Proof.
  unfold Py.range. rewrite in_map_iff. split.
  - intros (k & <- & Hk). apply in_seq in Hk. lia.
  - intros H. exists (Z.to_nat (x - lo)). split; [lia |].
    apply in_seq. lia.
Qed.

Lemma range_empty (lo hi : Z) : (hi <= lo)%Z -> Py.range lo hi = [].
Proof.
  intros H. unfold Py.range.
  replace (Z.to_nat (hi - lo)) with O by lia. reflexivity.
Qed.

Lemma range_length (lo hi : Z) : List.length (Py.range lo hi) = Z.to_nat (hi - lo).
Proof. unfold Py.range. rewrite length_map, length_seq. reflexivity. Qed.

Lemma map_seq_from (A : Type) (f : nat -> A) (a n : nat) :
  map f (seq a n) = map (fun k => f (a + k)%nat) (seq 0 n).
Proof.
  rewrite <- (map_map (Nat.add a) f). f_equal.
  revert a. induction n as [| n IH]; intros a; simpl.
  - reflexivity.
  - rewrite Nat.add_0_r. f_equal.
    rewrite (IH (S a)), <- (seq_shift n 0), map_map.
    apply map_ext. intros k. lia.
Qed.

Lemma range_split (lo mid hi : Z) :
  (lo <= mid <= hi)%Z -> Py.range lo hi = Py.range lo mid ++ Py.range mid hi.
Proof.
  intros H. unfold Py.range.
  replace (Z.to_nat (hi - lo)) with (Z.to_nat (mid - lo) + Z.to_nat (hi - mid))%nat by lia.
  rewrite seq_app, map_app. f_equal.
  simpl. rewrite map_seq_from.
  apply map_ext. intros k. lia.
Qed.

Lemma range_cons (lo hi : Z) :
  (lo < hi)%Z -> Py.range lo hi = lo :: Py.range (lo + 1) hi.
Proof.
  intros H. rewrite (range_split lo (lo + 1) hi) by lia.
  unfold Py.range at 1.
  replace (Z.to_nat (lo + 1 - lo)) with 1%nat by lia.
  simpl. rewrite Z.add_0_r. reflexivity.
Qed.

Lemma for_each_app (X S : Type) (xs ys : list X) (body : X -> S -> result S) (s : S) :
  Py.for_each (xs ++ ys) body s =
  (s' <- Py.for_each xs body s ;; Py.for_each ys body s').
Proof.
  revert s. induction xs as [| x xs IH]; intros s; simpl.
  - reflexivity.
  - destruct (body x s) as [s' | e]; simpl; [apply IH | reflexivity].
Qed.

End Primitives.

(** ** Valuation primitives *)

Ltac step_bind := cbn [bind fst snd].

Section Valuation.

Lemma twelfth_root_pow (x : R) : 0 < x -> Rpower x (1 / 12) ^ 12 = x.
Proof.
  intros Hx. replace 12 with (INR 12) by (simpl; lra).
  apply root_pow; [assumption | lia].
Qed.

(** The monthly rate is zero only for a zero annual rate. *)
Lemma twelfth_root_one (x : R) : 0 < x -> Rpower x (1 / 12) = 1 -> x = 1.
Proof.
  intros Hx H. rewrite <- (twelfth_root_pow x Hx), H. lra.
Qed.

Lemma twelfth_root_years (x : R) (y : Z) :
  0 < x -> (0 <= y)%Z -> Rpower x (1 / 12) ^ Z.to_nat (y * 12) = x ^ Z.to_nat y.
Proof.
  intros Hx Hy.
  replace (Z.to_nat (y * 12)) with (Z.to_nat y * 12)%nat by lia.
  replace 12 with (INR 12) by (simpl; lra).
  apply root_pow_mul; [assumption | lia].
Qed.

(** The two pre-tax valuations are the same function of their arguments. *)
Lemma pretax_is_keren (P r : R) (y : Z) (m : R) :
  calculate_personal_fv_pretax P r y m = calculate_keren_fv P r y m.
Proof. reflexivity. Qed.

(** Without contributions, or without years, only the lump sum is valued. *)
Lemma keren_fv_lump (P r : R) (y : Z) (m : R) :
  (0 <= y)%Z -> m <= 0 \/ (y <= 0)%Z ->
  calculate_keren_fv P r y m = Ok (P * (1 + r) ^ Z.to_nat y + 0).
Proof.
  intros Hy Hm. unfold calculate_keren_fv.
  rewrite pow_int_nonneg by assumption. step_bind.
  replace (Py.gt m 0 && (0 <? y)%Z) with false; [reflexivity |].
  symmetry. apply andb_false_iff. destruct Hm as [Hm | Hm].
  - left. apply gt_false. assumption.
  - right. apply Z.ltb_ge. assumption.
Qed.

(** With contributions and a monthly rate that is not zero, the ordinary
    annuity formula is added. *)
Lemma keren_fv_annuity (P r : R) (y : Z) (m : R) :
  (0 < y)%Z -> 0 < m -> 0 < 1 + r -> r <> 0 ->
  let i := Rpower (1 + r) (1 / 12) - 1 in
  calculate_keren_fv P r y m =
  Ok (P * (1 + r) ^ Z.to_nat y + m * (((1 + i) ^ Z.to_nat (y * 12) - 1) / i)).
Proof.
  intros Hy Hm Hr Hr0 i. unfold calculate_keren_fv.
  rewrite pow_int_nonneg by lia. step_bind.
  rewrite gt_true by assumption.
  replace (0 <? y)%Z with true by (symmetry; apply Z.ltb_lt; assumption).
  cbn [andb]. rewrite pow_float_pos by assumption. step_bind.
  rewrite pow_int_nonneg by lia. step_bind.
  rewrite true_div_ok; [reflexivity |].
  intros Hi. apply Hr0.
  assert (H1 : 1 + r = 1) by (apply twelfth_root_one; lra).
  lra.
Qed.

(** What the annuity branch does when the monthly rate is zero. *)
Lemma zero_monthly_rate_raises (P r : R) (y : Z) (m root : R) :
  0 < m -> (0 < y)%Z ->
  Py.pow_float (1 + r) (1 / 12) = Ok root -> root - 1 = 0 ->
  calculate_keren_fv P r y m = Raise ZeroDivisionError.
Proof.
  intros Hm Hy Hroot Hzero. unfold calculate_keren_fv.
  rewrite pow_int_nonneg by lia. step_bind.
  rewrite gt_true by assumption.
  replace (0 <? y)%Z with true by (symmetry; apply Z.ltb_lt; assumption).
  cbn [andb]. rewrite Hroot. step_bind.
  rewrite pow_int_nonneg by lia. step_bind.
  rewrite true_div_zero by assumption. reflexivity.
Qed.

Lemma zero_annual_rate_raises (P : R) (y : Z) (m : R) :
  0 < m -> (0 < y)%Z -> calculate_keren_fv P 0 y m = Raise ZeroDivisionError.
Proof.
  intros Hm Hy. apply (zero_monthly_rate_raises P 0 y m 1); try assumption.
  - replace (1 + 0) with 1 by lra. apply pow_float_one.
  - lra.
Qed.

End Valuation.

(** C1 (the code departs from the claim).  With a positive monthly contribution
    and positive years, a zero annual rate gives a zero monthly rate, and both
    pre-tax valuations then divide by it: no linear fallback
    [monthly_contribution * months] is returned, [ZeroDivisionError] is raised. *)
Theorem C1_zero_rate_annuity_divides_by_zero :
  calculate_keren_fv 10000 0 10 1571 = Raise ZeroDivisionError /\
  calculate_personal_fv_pretax 10000 0 10 1571 = Raise ZeroDivisionError.
Proof.
  split; [| rewrite pretax_is_keren]; apply zero_annual_rate_raises; (lra || lia).
Qed.

(** ** Yearly results *)

(** C6 (as the code has it).  The difference is the personal post-tax value
    minus the fund value; the percentage is that difference over the fund
    value, times one hundred, and 0 when the fund value is 0. *)
Theorem C6_difference_and_percentage (yr : YearlyResult) :
  difference yr = personal_fv_aftertax yr - keren_fv yr /\
  difference_pct yr =
  Ok (if Py.eq (keren_fv yr) 0 then 0 else difference yr / keren_fv yr * 100).
Proof.
  split; [reflexivity |].
  unfold difference_pct, difference.
  destruct (Py.eq (keren_fv yr) 0) eqn:E; [reflexivity |].
  rewrite true_div_ok; [reflexivity |].
  intros H. rewrite (eq_true _ _ H) in E. discriminate.
Qed.

(** C6, as stated, fails: with fund value 200 and personal post-tax value 300
    the difference over the fund value is 1/2, the percentage is 50. *)
Lemma C6_percentage_is_not_the_plain_ratio :
  let yr := {| year := 1; keren_fv := 200; personal_fv_pretax := 300;
               personal_fv_aftertax := 300; keren_wins := false |} in
  difference_pct yr = Ok 50 /\
  difference yr / keren_fv yr = 1 / 2 /\
  difference_pct yr <> Ok (difference yr / keren_fv yr).
Proof.
  cbv zeta.
  assert (H : difference_pct {| year := 1; keren_fv := 200; personal_fv_pretax := 300;
               personal_fv_aftertax := 300; keren_wins := false |} = Ok 50).
  { unfold difference_pct. cbn [keren_fv personal_fv_aftertax].
    rewrite eq_false by lra. rewrite true_div_ok by lra. step_bind.
    f_equal. lra. }
  split; [exact H |]. split.
  - unfold difference. cbn [keren_fv personal_fv_aftertax]. lra.
  - rewrite H. unfold difference. cbn [keren_fv personal_fv_aftertax].
    intros E. injection E as E. lra.
Qed.

(** ** Required return *)

Section RequiredReturn.

Variables (f tax : R) (years : Z).
Hypothesis Hyears : (1 <= years)%Z.

Local Abbreviation numerator := ((1 + f) ^ Z.to_nat years - tax).
Local Abbreviation denominator := (1 - tax).

Lemma required_return_unfold :
  calculate_required_return f tax years =
  if Py.le denominator 0 || Py.le numerator 0 then Ok Infinity
  else Ok (Finite (Rpower (numerator / denominator) (1 / IZR years) - 1)).
Proof.
  unfold calculate_required_return.
  rewrite pow_int_nonneg by lia. step_bind.
  destruct (Rle_dec denominator 0) as [Hd | Hd].
  { rewrite (le_true _ _ Hd). reflexivity. }
  rewrite le_false by lra.
  destruct (Rle_dec numerator 0) as [Hn | Hn].
  { rewrite (le_true _ _ Hn). reflexivity. }
  rewrite le_false by lra. cbn [orb].
  rewrite true_div_ok by lra. step_bind.
  rewrite true_div_ok by (apply not_0_IZR; lia). step_bind.
  rewrite pow_float_pos; [reflexivity |].
  apply Rdiv_lt_0_compat; lra.
Qed.

Lemma required_return_sentinel :
  calculate_required_return f tax years = Ok Infinity <->
  denominator <= 0 \/ numerator <= 0.
Proof.
  rewrite required_return_unfold. split.
  - destruct (Rle_dec denominator 0) as [Hd | Hd]; [left; assumption |].
    destruct (Rle_dec numerator 0) as [Hn | Hn]; [right; assumption |].
    rewrite !le_false by lra. cbn [orb]. discriminate.
  - intros [Hd | Hn].
    + rewrite (le_true _ _ Hd). reflexivity.
    + rewrite (le_true _ _ Hn), orb_true_r. reflexivity.
Qed.

Lemma required_return_finite :
  ~ (denominator <= 0 \/ numerator <= 0) ->
  calculate_required_return f tax years =
  Ok (Finite (Rpower (numerator / denominator) (1 / IZR years) - 1)).
Proof.
  intros H. rewrite required_return_unfold.
  rewrite !le_false; [reflexivity | |].
  - apply Rnot_le_lt. intros Hn. apply H. right. assumption.
  - apply Rnot_le_lt. intros Hd. apply H. left. assumption.
Qed.

(** The required return, compounded over the horizon, gives the growth factor
    the inversion started from. *)
Lemma required_return_compounds :
  0 < denominator -> 0 < numerator ->
  (1 + (Rpower (numerator / denominator) (1 / IZR years) - 1)) ^ Z.to_nat years =
  numerator / denominator.
Proof.
  intros Hd Hn.
  replace (1 + (Rpower (numerator / denominator) (1 / IZR years) - 1))
    with (Rpower (numerator / denominator) (1 / IZR years)) by lra.
  replace (IZR years) with (INR (Z.to_nat years)).
  - apply root_pow; [apply Rdiv_lt_0_compat; assumption | lia].
  - rewrite INR_IZR_INZ, Z2Nat.id by lia. reflexivity.
Qed.

End RequiredReturn.

(** C7.  For a horizon of at least one year, [calculate_required_return]
    answers [float("inf")] exactly when [1 - tax_rate <= 0] or
    [(1 + keren_net_return) ** years - tax_rate <= 0]; otherwise it answers the
    finite closed form [(numerator / denominator) ** (1 / years) - 1]. *)
Theorem C7_required_return_sentinel (f tax : R) (years : Z) :
  (1 <= years)%Z ->
  (calculate_required_return f tax years = Ok Infinity <->
   1 - tax <= 0 \/ (1 + f) ^ Z.to_nat years - tax <= 0) /\
  (~ (1 - tax <= 0 \/ (1 + f) ^ Z.to_nat years - tax <= 0) ->
   calculate_required_return f tax years =
   Ok (Finite (Rpower (((1 + f) ^ Z.to_nat years - tax) / (1 - tax))
                 (1 / IZR years) - 1))).
Proof.
  intros Hy. split.
  - apply required_return_sentinel. assumption.
  - apply required_return_finite. assumption.
Qed.

Lemma C7_required_return_sentinel_witness :
  (1 <= 10)%Z /\
  (calculate_required_return 0.08 1 10 = Ok Infinity <->
   1 - 1 <= 0 \/ (1 + 0.08) ^ Z.to_nat 10 - 1 <= 0).
Proof.
  split; [lia |]. apply (C7_required_return_sentinel 0.08 1 10). lia.
Defined.

(** C5.  Round trip of the inversion over the reals: for a principal that is
    not negative, a tax rate below 1, a horizon of at least one year and a
    positive numerator, the required return is finite, and the post-tax value
    of the principal at that return is the fund value of the principal. *)
Theorem C5_required_return_round_trip (P f tax : R) (years : Z) :
  0 <= P -> tax < 1 -> (1 <= years)%Z ->
  0 < (1 + f) ^ Z.to_nat years - tax ->
  exists r : R,
    calculate_required_return f tax years = Ok (Finite r) /\
    calculate_personal_fv_aftertax P r years tax 0 =
    calculate_keren_fv P f years 0 /\
    calculate_keren_fv P f years 0 = Ok (P * (1 + f) ^ Z.to_nat years + 0).
Proof.
  intros HP Htax Hy Hn.
  exists (Rpower (((1 + f) ^ Z.to_nat years - tax) / (1 - tax)) (1 / IZR years) - 1).
  split; [| split].
  - apply required_return_finite; [assumption | lra].
  - rewrite keren_fv_lump by (lia || (left; lra)).
    unfold calculate_personal_fv_aftertax.
    rewrite (gt_false 0 0) by lra. cbn [andb].
    destruct (Rle_lt_dec P 0) as [HP0 | HP0].
    + rewrite gt_false by assumption. step_bind.
      f_equal. replace P with 0 by lra. lra.
    + rewrite gt_true by assumption.
      rewrite pow_int_nonneg by lia. step_bind.
      rewrite required_return_compounds by (lia || lra).
      f_equal. field. lra.
  - apply keren_fv_lump; [lia | left; lra].
Qed.

Lemma C5_required_return_round_trip_witness :
  0 <= 10000 /\ 0.30 < 1 /\ (1 <= 10)%Z /\
  0 < (1 + 0.08) ^ Z.to_nat 10 - 0.30 /\
  exists r : R,
    calculate_required_return 0.08 0.30 10 = Ok (Finite r) /\
    calculate_personal_fv_aftertax 10000 r 10 0.30 0 =
    calculate_keren_fv 10000 0.08 10 0 /\
    calculate_keren_fv 10000 0.08 10 0 = Ok (10000 * (1 + 0.08) ^ Z.to_nat 10 + 0).
Proof.
  assert (Hn : 0 < (1 + 0.08) ^ Z.to_nat 10 - 0.30).
  { assert (H : 1 <= (1 + 0.08) ^ Z.to_nat 10) by (apply pow_R1_Rle; lra). lra. }
  split; [lra |]. split; [lra |]. split; [lia |]. split; [exact Hn |].
  apply (C5_required_return_round_trip 10000 0.08 0.30 10); [lra | lra | lia | exact Hn].
Defined.

(** ** The loop over the monthly contributions *)

Section Contributions.

Lemma Rsum_app (X : Type) (f : X -> R) (xs ys : list X) :
  Rsum f (xs ++ ys) = Rsum f xs + Rsum f ys.
Proof.
  induction xs as [| x xs IH]; simpl; [lra | rewrite IH; lra].
Qed.

Lemma Rsum_map (X Y : Type) (g : X -> Y) (f : Y -> R) (xs : list X) :
  Rsum f (map g xs) = Rsum (fun x => f (g x)) xs.
Proof.
  induction xs as [| x xs IH]; simpl; [reflexivity | rewrite IH; reflexivity].
Qed.

Lemma Rsum_ext_in (X : Type) (f g : X -> R) (xs : list X) :
  (forall x, In x xs -> f x = g x) -> Rsum f xs = Rsum g xs.
Proof.
  induction xs as [| x xs IH]; intros H; simpl; [reflexivity |].
  rewrite (H x) by (left; reflexivity).
  rewrite IH; [reflexivity |]. intros z Hz. apply H. right. assumption.
Qed.

Lemma Rsum_scale (X : Type) (c : R) (f : X -> R) (xs : list X) :
  Rsum (fun x => c * f x) xs = c * Rsum f xs.
Proof.
  induction xs as [| x xs IH]; simpl; [lra | rewrite IH; lra].
Qed.

Lemma Rsum_const (X : Type) (c : R) (xs : list X) :
  Rsum (fun _ => c) xs = c * INR (List.length xs).
Proof.
  induction xs as [| x xs IH]; [simpl; lra |].
  change (Rsum (fun _ => c) (x :: xs)) with (c + Rsum (fun _ => c) xs).
  rewrite IH. change (List.length (x :: xs)) with (S (List.length xs)).
  rewrite S_INR. lra.
Qed.

(** A loop whose body adds [f x] to the accumulator computes a sum. *)
Lemma for_each_sum (X : Type) (f : X -> R) (body : X -> R -> result R) (xs : list X) :
  (forall x s, In x xs -> body x s = Ok (s + f x)) ->
  forall s, Py.for_each xs body s = Ok (s + Rsum f xs).
Proof.
  induction xs as [| x xs IH]; intros H s; simpl.
  - f_equal. lra.
  - rewrite H by (left; reflexivity). step_bind.
    rewrite IH by (intros z t Hz; apply H; right; assumption).
    f_equal. lra.
Qed.

Lemma contribution_step_ok (y : Z) (tax m i : R) (month : Z) (s : R) :
  (month <= y * 12 + 1)%Z ->
  contribution_step y tax m i month s = Ok (s + contribution_after_tax y tax m i month).
Proof.
  intros H. unfold contribution_step.
  rewrite pow_int_nonneg by lia. reflexivity.
Qed.

(** The loop of [calculate_personal_fv_aftertax] never raises and sums the
    contributions after tax. *)
Lemma contributions_loop (y : Z) (tax m i : R) :
  Py.for_each (Py.range 1 (y * 12 + 1)) (contribution_step y tax m i) 0 =
  Ok (0 + Rsum (contribution_after_tax y tax m i) (Py.range 1 (y * 12 + 1))).
Proof.
  apply for_each_sum. intros month s Hin.
  apply in_range in Hin. apply contribution_step_ok. lia.
Qed.

(** The twelfth root of a base that is not negative is a float. *)
Lemma twelfth_root_defined (x : R) :
  0 <= x -> exists q : R, Py.pow_float x (1 / 12) = Ok q.
Proof.
  intros [Hx | <-].
  - exists (Rpower x (1 / 12)). apply pow_float_pos. assumption.
  - exists 0. apply pow_float_zero. lra.
Qed.

(** The geometric sum the loop computes at a zero tax rate. *)
Lemma geometric_sum (q : R) (n : nat) :
  (q - 1) * Rsum (fun k => q ^ (n - k)) (seq 0 n) = q * (q ^ n - 1).
Proof.
  induction n as [| n IH].
  - simpl. lra.
  - rewrite seq_S, Rsum_app. cbn [Nat.add Rsum fold_right].
    rewrite (Rsum_ext_in _ _ (fun k => q * q ^ (n - k))).
    + rewrite Rsum_scale.
      replace (S n - n)%nat with 1%nat by lia.
      replace ((q - 1) * (q * Rsum (fun k => q ^ (n - k)) (seq 0 n) + (q ^ 1 + 0)))
        with (q * ((q - 1) * Rsum (fun k => q ^ (n - k)) (seq 0 n)) + q * (q - 1))
        by (simpl; ring).
      rewrite IH. simpl. ring.
    + intros k Hk. apply in_seq in Hk.
      replace (S n - k)%nat with (S (n - k)) by lia. reflexivity.
Qed.

Lemma zero_tax_contributions (y : Z) (m q : R) :
  (0 <= y)%Z ->
  (q - 1) * Rsum (contribution_after_tax y 0 m (q - 1)) (Py.range 1 (y * 12 + 1)) =
  m * (q * (q ^ Z.to_nat (y * 12) - 1)).
Proof.
  intros Hy. unfold Py.range. rewrite Rsum_map.
  replace (Z.to_nat (y * 12 + 1 - 1)) with (Z.to_nat (y * 12)) by lia.
  rewrite (Rsum_ext_in _ _ (fun k => m * q ^ (Z.to_nat (y * 12) - k))).
  - rewrite Rsum_scale.
    replace ((q - 1) * (m * Rsum (fun k => q ^ (Z.to_nat (y * 12) - k)) (seq 0 (Z.to_nat (y * 12)))))
      with (m * ((q - 1) * Rsum (fun k => q ^ (Z.to_nat (y * 12) - k)) (seq 0 (Z.to_nat (y * 12)))))
      by ring.
    rewrite geometric_sum. reflexivity.
  - intros k Hk. apply in_seq in Hk. unfold contribution_after_tax.
    replace (Z.to_nat (y * 12 - (1 + Z.of_nat k) + 1)) with (Z.to_nat (y * 12) - k)%nat by lia.
    replace (1 + (q - 1)) with q by lra. ring.
Qed.

End Contributions.

(** ** Post-tax valuation at the extreme tax rates *)

(** C8.  At a tax rate of 1 the post-tax value is what was paid in: the
    principal and [12 * years] monthly contributions, whatever the return rate
    (from -100% upwards, where its twelfth root is a float). *)
Theorem C8_full_tax_keeps_contributions_only (P r : R) (y : Z) (m : R) :
  0 <= P -> -1 <= r -> (0 <= y)%Z -> 0 <= m ->
  calculate_personal_fv_aftertax P r y 1 m = Ok (P + m * IZR (12 * y)).
Proof.
  intros HP Hr Hy Hm. unfold calculate_personal_fv_aftertax.
  assert (Hlump :
    (if Py.gt P 0
     then growth <- Py.pow_int (1 + r) y ;;
          Ok (P + (P * growth - P) * (1 - 1))
     else Ok 0) = Ok P).
  { destruct (Rle_lt_dec P 0) as [HP0 | HP0].
    - rewrite gt_false by assumption. f_equal. lra.
    - rewrite gt_true by assumption. rewrite pow_int_nonneg by assumption.
      step_bind. f_equal. lra. }
  rewrite Hlump. step_bind.
  destruct (Rle_lt_dec m 0) as [Hm0 | Hm0].
  { rewrite gt_false by assumption. cbn [andb]. step_bind.
    f_equal. replace m with 0 by lra. lra. }
  rewrite gt_true by assumption. cbn [andb].
  destruct (Z.ltb_spec 0 y) as [Hy0 | Hy0].
  - destruct (twelfth_root_defined (1 + r)) as [q Hq]; [lra |].
    rewrite Hq. step_bind. rewrite contributions_loop. step_bind.
    f_equal.
    rewrite (Rsum_ext_in _ _ (fun _ => m))
      by (intros month _; unfold contribution_after_tax; ring).
    rewrite Rsum_const, range_length, INR_IZR_INZ, Z2Nat.id by lia.
    replace (y * 12 + 1 - 1)%Z with (12 * y)%Z by lia. lra.
  - step_bind. f_equal. replace y with 0%Z by lia. simpl. lra.
Qed.

Lemma C8_full_tax_keeps_contributions_only_witness :
  0 <= 10000 /\ -1 <= 0.10 /\ (0 <= 20)%Z /\ 0 <= 1571 /\
  calculate_personal_fv_aftertax 10000 0.10 20 1 1571 =
  Ok (10000 + 1571 * IZR (12 * 20)).
Proof.
  split; [lra |]. split; [lra |]. split; [lia |]. split; [lra |].
  apply (C8_full_tax_keeps_contributions_only 10000 0.10 20 1571); lra || lia.
Defined.

(** At a zero tax rate the post-tax valuation treats every contribution as
    paid at the start of its month (it grows one month more than in the
    annuity formula of the pre-tax valuation), so the post-tax value exceeds
    the pre-tax value by [m * ((1 + r) ** years - 1)]. *)
Lemma zero_tax_gap (P r : R) (y : Z) (m : R) :
  0 <= P -> -1 < r -> r <> 0 -> (1 <= y)%Z -> 0 < m ->
  exists a b : R,
    calculate_personal_fv_pretax P r y m = Ok a /\
    calculate_personal_fv_aftertax P r y 0 m = Ok b /\
    b - a = m * ((1 + r) ^ Z.to_nat y - 1).
Proof.
  intros HP Hr Hr0 Hy Hm.
  set (q := Rpower (1 + r) (1 / 12)).
  assert (Hq1 : q - 1 <> 0).
  { intros H. apply Hr0.
    assert (H1 : 1 + r = 1) by (apply twelfth_root_one; [lra | fold q; lra]).
    lra. }
  assert (Hqn : q ^ Z.to_nat (y * 12) = (1 + r) ^ Z.to_nat y)
    by (apply twelfth_root_years; [lra | lia]).
  pose proof (zero_tax_contributions y m q ltac:(lia)) as Hsum.
  set (S := Rsum (contribution_after_tax y 0 m (q - 1)) (Py.range 1 (y * 12 + 1))) in *.
  exists (P * (1 + r) ^ Z.to_nat y + m * (((1 + (q - 1)) ^ Z.to_nat (y * 12) - 1) / (q - 1))).
  exists (P * (1 + r) ^ Z.to_nat y + (0 + S)).
  split; [| split].
  - rewrite pretax_is_keren. apply keren_fv_annuity; (lia || lra).
  - unfold calculate_personal_fv_aftertax.
    rewrite (gt_true m 0) by assumption.
    replace (0 <? y)%Z with true by (symmetry; apply Z.ltb_lt; lia).
    cbn [andb]. rewrite pow_float_pos by lra. fold q.
    destruct (Rle_lt_dec P 0) as [HP0 | HP0].
    + rewrite gt_false by assumption. step_bind.
      rewrite contributions_loop. step_bind. fold S.
      f_equal. replace P with 0 by lra. lra.
    + rewrite gt_true by assumption. rewrite pow_int_nonneg by lia.
      step_bind. rewrite contributions_loop. step_bind. fold S.
      f_equal. lra.
  - replace (1 + (q - 1)) with q by lra. rewrite Hqn in *.
    assert (HS : S = m * (q * ((1 + r) ^ Z.to_nat y - 1)) / (q - 1)).
    { rewrite <- Hsum. field. assumption. }
    rewrite HS. field. assumption.
Qed.

(** Without monthly contributions a zero tax rate does change nothing. *)
Lemma zero_tax_without_contributions (P r : R) (y : Z) :
  0 <= P -> (0 <= y)%Z ->
  calculate_personal_fv_aftertax P r y 0 0 = calculate_personal_fv_pretax P r y 0.
Proof.
  intros HP Hy.
  rewrite pretax_is_keren, keren_fv_lump by (lia || (left; lra)).
  unfold calculate_personal_fv_aftertax.
  rewrite (gt_false 0 0) by lra. cbn [andb].
  destruct (Rle_lt_dec P 0) as [HP0 | HP0].
  - rewrite gt_false by assumption. step_bind.
    f_equal. replace P with 0 by lra. lra.
  - rewrite gt_true by assumption. rewrite pow_int_nonneg by assumption.
    step_bind. f_equal. lra.
Qed.

(** C3 (the code departs from the claim).  At a zero tax rate the post-tax
    value is not the pre-tax value: with principal 10000, a return of 10%, one
    year and 1571 a month, it is 157.1 above it. *)
Theorem C3_zero_tax_is_not_a_no_op :
  exists a b : R,
    calculate_personal_fv_pretax 10000 0.10 1 1571 = Ok a /\
    calculate_personal_fv_aftertax 10000 0.10 1 0 1571 = Ok b /\
    b - a = 157.1.
Proof.
  destruct (zero_tax_gap 10000 0.10 1 1571) as (a & b & Ha & Hb & Hgap);
    try lra; try lia.
  exists a, b. split; [exact Ha |]. split; [exact Hb |].
  rewrite Hgap. simpl. lra.
Qed.

(** ** When the valuations return *)

Section Totality.

Lemma keren_fv_returns (P r : R) (y : Z) (m : R) :
  (0 <= y)%Z -> 0 < 1 + r -> m <= 0 \/ r <> 0 ->
  exists v : R, calculate_keren_fv P r y m = Ok v.
Proof.
  intros Hy Hr Hm.
  destruct (Rle_lt_dec m 0) as [Hm0 | Hm0].
  { eexists. apply keren_fv_lump; [assumption | left; assumption]. }
  destruct (Z.le_gt_cases y 0) as [Hy0 | Hy0].
  { eexists. apply keren_fv_lump; [assumption | right; assumption]. }
  destruct Hm as [Hm | Hr0]; [lra |].
  eexists. apply keren_fv_annuity; (lia || lra || assumption).
Qed.

Lemma aftertax_returns (P r : R) (y : Z) (tax m : R) :
  (0 <= y)%Z -> 0 <= 1 + r ->
  exists v : R, calculate_personal_fv_aftertax P r y tax m = Ok v.
Proof.
  intros Hy Hr. unfold calculate_personal_fv_aftertax.
  rewrite pow_int_nonneg by assumption.
  destruct (twelfth_root_defined (1 + r) Hr) as [q Hq]. rewrite Hq.
  destruct (Py.gt P 0); step_bind;
    (destruct (Py.gt m 0 && (0 <? y)%Z); step_bind;
     [rewrite contributions_loop; step_bind |]; eexists; reflexivity).
Qed.

End Totality.

(** ** The orchestrator and the break-even search *)

Section Orchestrator.

Variable inp : InvestmentInputs.
Variable kal : R.

Local Abbreviation knr := (get_keren_net_return inp).
Local Abbreviation per := (get_personal_effective_return inp).
Local Abbreviation lockup := (keren_lockup_years inp).
Local Abbreviation step := (comparison_step inp knr per lockup kal).
Local Abbreviation test :=
  (personal_reaches_keren (principal inp) knr per (capital_gains_tax inp)
     (monthly_contribution inp) lockup kal).

(** One pass of the loop of [run_comparison]: it appends the result of the
    year, which satisfies the lockup invariant; after the lockup it asks the
    question the break-even search asks; the break-even year is set once. *)
Lemma comparison_step_spec (yr : Z) (acc acc' : list YearlyResult) (be be' : option Z) :
  step yr (acc, be) = Ok (acc', be') ->
  exists res : YearlyResult,
    acc' = acc ++ [res] /\ year res = yr /\ locked lockup res /\
    ((lockup < yr)%Z -> test yr = Ok (negb (keren_wins res))) /\
    be' = match be with
          | Some y => Some y
          | None => if negb (keren_wins res) && (lockup <? yr)%Z then Some yr else None
          end.
Proof.
  unfold comparison_step, personal_reaches_keren. cbn [fst snd].
  destruct (calculate_keren_fv (principal inp) knr yr (monthly_contribution inp))
    as [kf |]; [step_bind | discriminate].
  destruct (Z.leb_spec yr lockup) as [Hle | Hgt].
  - step_bind. intros H. injection H as <- <-.
    eexists. split; [reflexivity |]. split; [reflexivity |].
    split; [intros _; split; reflexivity |].
    split; [intros Hlt; lia |].
    destruct be; reflexivity.
  - destruct (calculate_personal_fv_pretax kal per (yr - lockup) 0)
      as [lump |]; [step_bind | discriminate].
    destruct (calculate_personal_fv_pretax 0 per (yr - lockup) (monthly_contribution inp))
      as [cp |]; [step_bind | discriminate].
    destruct (calculate_personal_fv_aftertax 0 per (yr - lockup)
                (capital_gains_tax inp) (monthly_contribution inp))
      as [ca |]; [step_bind | discriminate].
    intros H. injection H as <- <-.
    eexists. split; [reflexivity |]. split; [reflexivity |].
    split; [intros Hle; cbn [year] in Hle; lia |].
    split; [intros _; cbn [keren_wins]; rewrite negb_gt_ge; reflexivity |].
    destruct be; reflexivity.
Qed.

Lemma find_app (A : Type) (p : A -> bool) (xs ys : list A) :
  find p (xs ++ ys) = match find p xs with Some x => Some x | None => find p ys end.
Proof.
  induction xs as [| x xs IH]; simpl; [reflexivity |].
  destruct (p x); [reflexivity | apply IH].
Qed.

Lemma first_personal_year_snoc (series : list YearlyResult) (res : YearlyResult) :
  first_personal_year lockup (series ++ [res]) =
  match first_personal_year lockup series with
  | Some y => Some y
  | None => if negb (keren_wins res) && (lockup <? year res)%Z then Some (year res) else None
  end.
Proof.
  unfold first_personal_year. rewrite find_app.
  destruct (find _ series) as [x |]; [reflexivity |].
  simpl. rewrite andb_comm.
  destruct (negb (keren_wins res) && (lockup <? year res)%Z); reflexivity.
Qed.

(** The loop as a whole: one result per year, in order, each one locked while
    the lockup lasts. *)
Lemma comparison_loop_series (yrs : list Z) (acc acc' : list YearlyResult) (be be' : option Z) :
  Py.for_each yrs step (acc, be) = Ok (acc', be') ->
  exists series : list YearlyResult,
    acc' = acc ++ series /\ map year series = yrs /\ Forall (locked lockup) series.
Proof.
  revert acc be. induction yrs as [| yr yrs IH]; intros acc be H; simpl in H.
  - injection H as <- <-. exists []. rewrite app_nil_r. repeat split. constructor.
  - destruct (step yr (acc, be)) as [[acc1 be1] |] eqn:Hstep; [| discriminate].
    cbn [bind fst snd] in H.
    apply comparison_step_spec in Hstep.
    destruct Hstep as (res & -> & Hyr & Hlocked & _).
    apply IH in H. destruct H as (series & -> & Hmap & Hall).
    exists (res :: series). rewrite <- app_assoc. split; [reflexivity |].
    split; [simpl; congruence |]. constructor; assumption.
Qed.

(** While the lockup lasts nothing is recorded as a break-even. *)
Lemma comparison_loop_locked (yrs : list Z) (acc acc' : list YearlyResult) (be be' : option Z) :
  (forall yr, In yr yrs -> (yr <= lockup)%Z) ->
  Py.for_each yrs step (acc, be) = Ok (acc', be') ->
  first_personal_year lockup acc' = first_personal_year lockup acc /\ be' = be.
Proof.
  revert acc be. induction yrs as [| yr yrs IH]; intros acc be Hyrs H; simpl in H.
  - injection H as <- <-. split; reflexivity.
  - destruct (step yr (acc, be)) as [[acc1 be1] |] eqn:Hstep; [| discriminate].
    cbn [bind fst snd] in H.
    apply comparison_step_spec in Hstep.
    destruct Hstep as (res & -> & Hyr & _ & _ & ->).
    apply IH in H; [| intros z Hz; apply Hyrs; right; assumption].
    destruct H as [-> ->].
    assert (Hle : (yr <= lockup)%Z) by (apply Hyrs; left; reflexivity).
    rewrite first_personal_year_snoc, Hyr.
    replace (lockup <? yr)%Z with false by (symmetry; apply Z.ltb_ge; assumption).
    rewrite andb_false_r.
    split; [destruct (first_personal_year lockup acc) | destruct be]; reflexivity.
Qed.

(** After the lockup the loop of [run_comparison] and the search of
    [find_breakeven_year] walk the same years with the same question. *)
Lemma comparison_loop_search (yrs : list Z) (acc acc' : list YearlyResult) (be be' : option Z) :
  (forall yr, In yr yrs -> (lockup < yr)%Z) ->
  Py.for_each yrs step (acc, be) = Ok (acc', be') ->
  exists hit : option Z,
    Py.first_hit yrs test = Ok hit /\
    first_personal_year lockup acc' =
      match first_personal_year lockup acc with Some y => Some y | None => hit end /\
    be' = match be with Some y => Some y | None => hit end.
Proof.
  revert acc be. induction yrs as [| yr yrs IH]; intros acc be Hyrs H; simpl in H.
  - injection H as <- <-. exists None. split; [reflexivity |].
    split; [destruct (first_personal_year lockup acc) | destruct be]; reflexivity.
  - destruct (step yr (acc, be)) as [[acc1 be1] |] eqn:Hstep; [| discriminate].
    cbn [bind fst snd] in H.
    apply comparison_step_spec in Hstep.
    destruct Hstep as (res & -> & Hyr & _ & Htest & ->).
    assert (Hlt : (lockup < yr)%Z) by (apply Hyrs; left; reflexivity).
    apply IH in H; [| intros z Hz; apply Hyrs; right; assumption].
    destruct H as (hit & Hhit & -> & ->).
    rewrite first_personal_year_snoc, Hyr.
    replace (lockup <? yr)%Z with true by (symmetry; apply Z.ltb_lt; assumption).
    rewrite andb_true_r.
    cbn [Py.first_hit]. rewrite (Htest Hlt). step_bind.
    destruct (negb (keren_wins res)).
    + exists (Some yr). split; [reflexivity |].
      split; [destruct (first_personal_year lockup acc) | destruct be]; reflexivity.
    + exists hit. split; [exact Hhit |].
      split; [destruct (first_personal_year lockup acc) | destruct be]; reflexivity.
Qed.

End Orchestrator.

Section Comparison.

Variable inp : InvestmentInputs.

Local Abbreviation knr := (get_keren_net_return inp).
Local Abbreviation per := (get_personal_effective_return inp).
Local Abbreviation lockup := (keren_lockup_years inp).

Lemma run_comparison_inv (res : ComparisonResult) :
  run_comparison inp = Ok res ->
  exists (kal : R) (st : comparison_state),
    calculate_keren_fv (principal inp) knr lockup (monthly_contribution inp) = Ok kal /\
    Py.for_each (Py.range 1 (horizon_years inp + 1))
      (comparison_step inp knr per lockup kal) ([], None) = Ok st /\
    yearly_results res = fst st /\ breakeven_year res = snd st.
Proof.
  unfold run_comparison.
  destruct (calculate_keren_fv (principal inp) knr lockup (monthly_contribution inp))
    as [kal |]; [step_bind | discriminate].
  destruct (Py.for_each _ _ _) as [st |] eqn:Hloop; [step_bind | discriminate].
  intros H. injection H as <-. exists kal, st. repeat split. exact Hloop.
Qed.

(** The yearly series has one result per year 1..horizon, in order. *)
Lemma run_comparison_years (res : ComparisonResult) :
  run_comparison inp = Ok res ->
  map year (yearly_results res) = Py.range 1 (horizon_years inp + 1) /\
  Forall (locked lockup) (yearly_results res).
Proof.
  intros H. apply run_comparison_inv in H.
  destruct H as (kal & [acc be] & _ & Hloop & -> & _).
  apply comparison_loop_series in Hloop.
  destruct Hloop as (series & -> & Hmap & Hall). split; assumption.
Qed.

Lemma run_comparison_search (res : ComparisonResult) :
  (0 <= lockup)%Z ->
  run_comparison inp = Ok res ->
  find_breakeven_year (principal inp) knr per (capital_gains_tax inp)
    (monthly_contribution inp) (horizon_years inp) lockup =
  Ok (first_personal_year lockup (yearly_results res)) /\
  breakeven_year res = first_personal_year lockup (yearly_results res).
Proof.
  intros Hlock H. apply run_comparison_inv in H.
  destruct H as (kal & [acc be] & Hkal & Hloop & -> & ->). cbn [fst snd].
  unfold find_breakeven_year. rewrite Hkal. step_bind.
  destruct (Z.le_gt_cases lockup (horizon_years inp)) as [Hle | Hgt].
  - rewrite (range_split 1 (lockup + 1) (horizon_years inp + 1)) in Hloop by lia.
    rewrite for_each_app in Hloop.
    destruct (Py.for_each (Py.range 1 (lockup + 1)) _ _) as [[acc1 be1] |] eqn:Hfirst;
      [| discriminate].
    cbn [bind] in Hloop.
    apply comparison_loop_locked in Hfirst;
      [| intros yr Hyr; apply in_range in Hyr; lia].
    destruct Hfirst as [Hacc1 ->].
    apply comparison_loop_search in Hloop;
      [| intros yr Hyr; apply in_range in Hyr; lia].
    destruct Hloop as (hit & Hhit & -> & ->).
    rewrite Hacc1. cbn [first_personal_year find option_map].
    split; [exact Hhit | reflexivity].
  - rewrite (range_empty (lockup + 1)) by lia. cbn [Py.first_hit].
    apply comparison_loop_locked in Hloop;
      [| intros yr Hyr; apply in_range in Hyr; lia].
    destruct Hloop as [-> ->]. split; reflexivity.
Qed.

Hypothesis Hlockup : (0 <= lockup)%Z.
Hypothesis Hknr : 0 < 1 + knr.
Hypothesis Hper : 0 < 1 + per.
Hypothesis Hrates : monthly_contribution inp <= 0 \/ (knr <> 0 /\ per <> 0).

Lemma comparison_step_returns (kal : R) (yr : Z) (st : comparison_state) :
  (0 <= yr)%Z ->
  exists st' : comparison_state, comparison_step inp knr per lockup kal yr st = Ok st'.
Proof.
  intros Hyr. unfold comparison_step.
  destruct (keren_fv_returns (principal inp) knr yr (monthly_contribution inp))
    as [kf ->]; [assumption | assumption | tauto |]. step_bind.
  destruct (Z.leb_spec yr lockup) as [Hle | Hgt].
  { step_bind. eexists. reflexivity. }
  rewrite pretax_is_keren.
  destruct (keren_fv_returns kal per (yr - lockup) 0)
    as [lump ->]; [lia | assumption | left; lra |]. step_bind.
  rewrite pretax_is_keren.
  destruct (keren_fv_returns 0 per (yr - lockup) (monthly_contribution inp))
    as [cp ->]; [lia | assumption | tauto |]. step_bind.
  destruct (aftertax_returns 0 per (yr - lockup) (capital_gains_tax inp)
              (monthly_contribution inp))
    as [ca ->]; [lia | lra |]. step_bind.
  eexists. reflexivity.
Qed.

Lemma comparison_loop_returns (kal : R) (yrs : list Z) (st : comparison_state) :
  (forall yr, In yr yrs -> (0 <= yr)%Z) ->
  exists st' : comparison_state,
    Py.for_each yrs (comparison_step inp knr per lockup kal) st = Ok st'.
Proof.
  revert st. induction yrs as [| yr yrs IH]; intros st Hyrs; simpl.
  - eexists. reflexivity.
  - destruct (comparison_step_returns kal yr st) as [st1 ->];
      [apply Hyrs; left; reflexivity |].
    step_bind. apply IH. intros z Hz. apply Hyrs. right. assumption.
Qed.

(** With rates above -100%, and no zero rate when there are contributions,
    [run_comparison] returns. *)
Lemma run_comparison_returns :
  exists res : ComparisonResult, run_comparison inp = Ok res.
Proof.
  unfold run_comparison.
  destruct (keren_fv_returns (principal inp) knr lockup (monthly_contribution inp))
    as [kal ->]; [assumption | assumption | tauto |]. step_bind.
  destruct (comparison_loop_returns kal (Py.range 1 (horizon_years inp + 1)) ([], None))
    as [st ->]; [intros yr Hyr; apply in_range in Hyr; lia |].
  step_bind. eexists. reflexivity.
Qed.

End Comparison.

(** The scenario of the specification is one on which [run_comparison]
    returns, with a first year that is locked. *)
Lemma scenario_runs :
  exists res : ComparisonResult, run_comparison scenario = Ok res.
Proof.
  apply run_comparison_returns; unfold get_keren_net_return, get_personal_effective_return;
    cbn [scenario keren_return_is_net include_tax_drag keren_gross_return keren_mgmt_fee
         personal_return keren_lockup_years monthly_contribution].
  - lia.
  - lra.
  - lra.
  - right. split; lra.
Qed.

Lemma scenario_first_year (res : ComparisonResult) :
  run_comparison scenario = Ok res ->
  exists yr : YearlyResult, In yr (yearly_results res) /\ year yr = 1%Z.
Proof.
  intros H. apply run_comparison_years in H. destruct H as [Hmap _].
  destruct (yearly_results res) as [| yr rest]; [discriminate |].
  exists yr. split; [left; reflexivity |].
  rewrite range_cons in Hmap by (cbn; lia). simpl in Hmap. congruence.
Qed.

(** C4.  In the yearly series of [run_comparison], every result of a year up
    to the lockup year has its personal pre-tax value and its personal
    post-tax value both equal to its fund value. *)
Theorem C4_lockup_invariant (inp : InvestmentInputs) (res : ComparisonResult) (yr : YearlyResult) :
  run_comparison inp = Ok res ->
  In yr (yearly_results res) ->
  (year yr <= keren_lockup_years inp)%Z ->
  personal_fv_pretax yr = keren_fv yr /\ personal_fv_aftertax yr = keren_fv yr.
Proof.
  intros Hrun Hin Hle.
  apply run_comparison_years in Hrun. destruct Hrun as [_ Hall].
  rewrite Forall_forall in Hall. apply (Hall yr Hin Hle).
Qed.

Lemma C4_lockup_invariant_witness :
  exists (res : ComparisonResult) (yr : YearlyResult),
    run_comparison scenario = Ok res /\
    In yr (yearly_results res) /\
    (year yr <= keren_lockup_years scenario)%Z /\
    personal_fv_pretax yr = keren_fv yr /\ personal_fv_aftertax yr = keren_fv yr.
Proof.
  destruct scenario_runs as [res Hres].
  destruct (scenario_first_year res Hres) as (yr & Hin & Hyr).
  assert (Hle : (year yr <= keren_lockup_years scenario)%Z) by (rewrite Hyr; cbn; lia).
  exists res, yr. split; [exact Hres |]. split; [exact Hin |]. split; [exact Hle |].
  exact (C4_lockup_invariant scenario res yr Hres Hin Hle).
Defined.

(** C2.  With [max_years] equal to the horizon, and a lockup that is not
    negative, the year [find_breakeven_year] returns is the first year after
    the lockup in the yearly series of [run_comparison] whose [keren_wins] is
    false, and it is [None] exactly when the series has no such year. *)
Theorem C2_breakeven_search_agrees_with_comparison
  (inp : InvestmentInputs) (res : ComparisonResult) :
  (0 <= keren_lockup_years inp)%Z ->
  run_comparison inp = Ok res ->
  find_breakeven_year (principal inp) (get_keren_net_return inp)
    (get_personal_effective_return inp) (capital_gains_tax inp)
    (monthly_contribution inp) (horizon_years inp) (keren_lockup_years inp) =
  Ok (first_personal_year (keren_lockup_years inp) (yearly_results res)).
Proof.
  intros Hlock Hrun. apply run_comparison_search; assumption.
Qed.

Lemma C2_breakeven_search_agrees_with_comparison_witness :
  exists res : ComparisonResult,
    (0 <= keren_lockup_years scenario)%Z /\
    run_comparison scenario = Ok res /\
    find_breakeven_year (principal scenario) (get_keren_net_return scenario)
      (get_personal_effective_return scenario) (capital_gains_tax scenario)
      (monthly_contribution scenario) (horizon_years scenario)
      (keren_lockup_years scenario) =
    Ok (first_personal_year (keren_lockup_years scenario) (yearly_results res)).
Proof.
  destruct scenario_runs as [res Hres].
  assert (Hlock : (0 <= keren_lockup_years scenario)%Z) by (cbn; lia).
  exists res. split; [exact Hlock |]. split; [exact Hres |].
  exact (C2_breakeven_search_agrees_with_comparison scenario res Hlock Hres).
Defined.

(** ** The search on its own *)

Section Search.

Variables (P knr pr tax m : R) (max_years lockup : Z).

Lemma first_hit_in (yrs : list Z) (test : Z -> result bool) (y : Z) :
  Py.first_hit yrs test = Ok (Some y) -> In y yrs.
Proof.
  induction yrs as [| yr yrs IH]; simpl; [discriminate |].
  destruct (test yr) as [[|] |]; step_bind; intros H.
  - injection H as ->. left. reflexivity.
  - right. apply IH. assumption.
  - discriminate.
Qed.

(** A year the search returns is after the lockup and within the ceiling. *)
Lemma find_breakeven_year_range (y : Z) :
  find_breakeven_year P knr pr tax m max_years lockup = Ok (Some y) ->
  (lockup < y <= max_years)%Z.
Proof.
  unfold find_breakeven_year.
  destruct (calculate_keren_fv P knr lockup m) as [kal |]; [step_bind | discriminate].
  intros H. apply first_hit_in, in_range in H. lia.
Qed.

(** With no year to search, the answer is [None], once the fund has been
    valued at the lockup. *)
Lemma find_breakeven_year_empty (kal : R) :
  (max_years <= lockup)%Z ->
  calculate_keren_fv P knr lockup m = Ok kal ->
  find_breakeven_year P knr pr tax m max_years lockup = Ok None.
Proof.
  intros Hle Hkal. unfold find_breakeven_year. rewrite Hkal. step_bind.
  rewrite range_empty by lia. reflexivity.
Qed.

(** The valuation at the lockup comes first: what it raises, the search
    raises, searched years or not. *)
Lemma find_breakeven_year_raises (e : exn) :
  calculate_keren_fv P knr lockup m = Raise e ->
  find_breakeven_year P knr pr tax m max_years lockup = Raise e.
Proof.
  intros Hkal. unfold find_breakeven_year. rewrite Hkal. reflexivity.
Qed.

End Search.

(** C10 (the code departs from the claim).  With the lockup at the search
    ceiling the search has no year to try, yet at a fund return of zero and a
    positive monthly contribution it does not answer [None]: valuing the fund
    at the lockup divides by the zero monthly rate. *)
Theorem C10_empty_search_raises_at_zero_rate :
  find_breakeven_year 0 0 0.10 0.25 1571 10 10 = Raise ZeroDivisionError.
Proof.
  apply find_breakeven_year_raises. apply zero_annual_rate_raises; (lra || lia).
Qed.

(** ** The sensitivity matrix *)

Section Dicts.

Lemma dict_set_fresh (d : dict) (k : string) (v : cell) :
  ~ In k (dict_keys d) -> dict_set d k v = d ++ [(k, v)].
Proof.
  induction d as [| [k' v'] d IH]; intros Hk; simpl; [reflexivity |].
  destruct (String.eqb_spec k k') as [-> | Hne].
  - exfalso. apply Hk. left. reflexivity.
  - rewrite IH; [reflexivity |]. intros Hin. apply Hk. right. assumption.
Qed.

(** Setting a key that is there keeps the keys as they are. *)
Lemma dict_set_present (d : dict) (k : string) (v : cell) :
  In k (dict_keys d) -> dict_keys (dict_set d k v) = dict_keys d.
Proof.
  induction d as [| [k' v'] d IH]; intros Hk; simpl; [contradiction |].
  destruct (String.eqb_spec k k') as [-> | Hne]; [reflexivity |].
  simpl in *. f_equal. apply IH. destruct Hk as [Hk | Hk]; [congruence | assumption].
Qed.

Lemma keys_combine (ks : list string) (cs : list cell) :
  List.length cs = List.length ks -> dict_keys (combine ks cs) = ks.
Proof.
  revert cs. induction ks as [| k ks IH]; intros [| c cs] H; simpl in *;
    try reflexivity; try discriminate.
  f_equal. apply IH. congruence.
Qed.

Lemma values_combine (ks : list string) (cs : list cell) :
  List.length cs = List.length ks -> map snd (combine ks cs) = cs.
Proof.
  revert cs. induction ks as [| k ks IH]; intros [| c cs] H; simpl in *;
    try reflexivity; try discriminate.
  f_equal. apply IH. congruence.
Qed.

(** Reading a dict at its own keys gives its values, in order. *)
Lemma dict_get_keys (d : dict) :
  NoDup (dict_keys d) -> map (dict_get d) (dict_keys d) = map snd d.
Proof.
  induction d as [| [k v] d IH]; intros Hnd; simpl; [reflexivity |].
  inversion Hnd as [| ? ? Hk Hnd']; subst.
  f_equal.
  - unfold dict_get. simpl. rewrite String.eqb_refl. reflexivity.
  - rewrite <- IH by assumption. apply map_ext_in. intros k' Hk'.
    unfold dict_get. simpl.
    destruct (String.eqb_spec k' k) as [-> | Hne]; [contradiction | reflexivity].
Qed.

Lemma add_column_present (cols : list string) (k : string) :
  In k cols -> add_column cols k = cols.
Proof.
  intros Hin. unfold add_column.
  replace (existsb (String.eqb k) cols) with true; [reflexivity |].
  symmetry. apply existsb_exists. exists k. split; [assumption | apply String.eqb_refl].
Qed.

Lemma add_column_fresh (cols : list string) (k : string) :
  ~ In k cols -> add_column cols k = cols ++ [k].
Proof.
  intros Hin. unfold add_column.
  replace (existsb (String.eqb k) cols) with false; [reflexivity |].
  symmetry. apply not_true_is_false. intros H.
  apply existsb_exists in H. destruct H as (k' & Hk' & Heq).
  apply String.eqb_eq in Heq. subst. contradiction.
Qed.

Lemma add_columns_present (cols ks : list string) :
  (forall k, In k ks -> In k cols) -> fold_left add_column ks cols = cols.
Proof.
  induction ks as [| k ks IH]; intros H; simpl; [reflexivity |].
  rewrite add_column_present by (apply H; left; reflexivity).
  apply IH. intros k' Hk'. apply H. right. assumption.
Qed.

Lemma add_columns_fresh (cols ks : list string) :
  NoDup (cols ++ ks) -> fold_left add_column ks cols = cols ++ ks.
Proof.
  revert cols. induction ks as [| k ks IH]; intros cols H; simpl.
  - rewrite app_nil_r. reflexivity.
  - rewrite add_column_fresh.
    + rewrite IH; rewrite <- app_assoc; [reflexivity | exact H].
    + apply NoDup_remove_2 in H. intros Hin. apply H.
      apply in_or_app. left. assumption.
Qed.

(** Records that all have the keys [ks], in that order, make a frame with the
    columns [ks] and the values of the records as rows. *)
Lemma frame_of_uniform_records (ks : list string) (data : list dict) :
  NoDup ks -> data <> [] ->
  Forall (fun row => dict_keys row = ks) data ->
  columns (frame_of_records data) = ks /\
  values (frame_of_records data) = map (map snd) data.
Proof.
  intros Hnd Hne Hall.
  assert (Hcols :
    fold_left (fun cols row => fold_left add_column (dict_keys row) cols) data [] = ks).
  { destruct data as [| row data]; [contradiction |].
    pose proof (Forall_inv Hall) as Hrow. pose proof (Forall_inv_tail Hall) as Hrest.
    simpl in Hrow. simpl. rewrite Hrow.
    rewrite add_columns_fresh by exact Hnd. simpl.
    clear Hne Hall Hrow. induction data as [| row' data IH]; simpl; [reflexivity |].
    pose proof (Forall_inv Hrest) as Hrow'. simpl in Hrow'. rewrite Hrow'.
    rewrite add_columns_present by (intros k Hk; exact Hk).
    apply IH. exact (Forall_inv_tail Hrest). }
  unfold frame_of_records. cbn [columns values]. rewrite Hcols.
  split; [reflexivity |].
  apply map_ext_in. intros row Hrow.
  rewrite Forall_forall in Hall. specialize (Hall row Hrow).
  rewrite <- Hall. apply dict_get_keys. rewrite Hall. assumption.
Qed.

Lemma length_concat_uniform (A : Type) (n : nat) (rows : list (list A)) :
  Forall (fun row => List.length row = n) rows ->
  List.length (List.concat rows) = (List.length rows * n)%nat.
Proof.
  induction 1 as [| row rows Hrow _ IH]; simpl; [reflexivity |].
  rewrite length_app, IH, Hrow. reflexivity.
Qed.

Lemma tax_label_is_not_the_index (tr : R) : tax_label tr <> "Personal Return"%string.
Proof. unfold tax_label. simpl. discriminate. Qed.

End Dicts.

Section Labels.

Lemma round_half_even_integer (x : R) (n : Z) : x = IZR n -> Fmt.round_half_even x = n.
Proof.
  intros Hx.
  destruct (Int_part_frac_part_spec x n 0) as [Hn Hf]; [lra | lra |].
  unfold Fmt.round_half_even. rewrite <- Hn, <- Hf.
  destruct (Rlt_dec 0 (1 / 2)); [reflexivity | lra].
Qed.

(** The label of a tax rate of a whole, positive number of percent. *)
Lemma tax_label_percent (tr : R) (n : Z) :
  tr * 100 = IZR n -> (0 < n)%Z ->
  tax_label tr = ("Tax " ++ Fmt.digits n ++ "%")%string.
Proof.
  intros Hn Hpos. unfold tax_label, Fmt.fixed0.
  rewrite (round_half_even_integer _ n Hn).
  replace (n =? 0)%Z with false by (symmetry; apply Z.eqb_neq; lia).
  reflexivity.
Qed.

End Labels.

Section Matrix.

Variables (P knr : R) (tax_rates : list R) (m : R) (max_years lockup : Z).

Local Abbreviation labels := (map tax_label tax_rates).
Local Abbreviation index_key := ("Personal Return"%string).

Hypothesis Hlockup : (0 <= lockup)%Z.

Lemma breakeven_cell_ok (pr tr : R) (be : option Z) :
  find_breakeven_year P knr pr tr m max_years lockup = Ok be ->
  cell_ok max_years (breakeven_cell be).
Proof.
  intros H. destruct be as [y |]; [| left; reflexivity].
  apply find_breakeven_year_range in H. unfold breakeven_cell.
  replace (y =? 0)%Z with false by (symmetry; apply Z.eqb_neq; lia).
  right. exists y. split; [reflexivity | lia].
Qed.

(** The loop over the tax rates, when the labels are pairwise distinct and
    new to the row: one cell is appended per tax rate. *)
Lemma row_loop (pr : R) (trs : list R) (d row : dict) :
  NoDup (map tax_label trs) ->
  (forall tr, In tr trs -> ~ In (tax_label tr) (dict_keys d)) ->
  Py.for_each trs
    (fun tr row =>
       be_year <- find_breakeven_year P knr pr tr m max_years lockup ;;
       Ok (dict_set row (tax_label tr) (breakeven_cell be_year))) d = Ok row ->
  exists cs : list cell,
    List.length cs = List.length trs /\ Forall (cell_ok max_years) cs /\
    row = d ++ combine (map tax_label trs) cs.
Proof.
  revert d. induction trs as [| tr trs IH]; intros d Hnd Hfresh H; simpl in H.
  - injection H as <-. exists []. rewrite app_nil_r. repeat split. constructor.
  - destruct (find_breakeven_year P knr pr tr m max_years lockup) as [be |] eqn:Hbe;
      [| discriminate].
    cbn [bind] in H.
    rewrite dict_set_fresh in H by (apply Hfresh; left; reflexivity).
    simpl in Hnd. inversion Hnd as [| ? ? Hnotin Hnd']; subst.
    apply IH in H; [| assumption |].
    + destruct H as (cs & Hlen & Hok & ->).
      exists (breakeven_cell be :: cs). split; [simpl; congruence |].
      split; [constructor; [apply (breakeven_cell_ok pr tr); assumption | assumption] |].
      rewrite <- app_assoc. reflexivity.
    + intros tr' Hin' Hkey. unfold dict_keys in Hkey.
      rewrite map_app in Hkey. apply in_app_or in Hkey.
      destruct Hkey as [Hkey | [Hkey | []]].
      * apply (Hfresh tr'); [right; assumption | exact Hkey].
      * apply Hnotin. simpl in Hkey. rewrite Hkey. apply in_map. assumption.
Qed.

Hypothesis Hlabels : NoDup labels.

Lemma sensitivity_row_shape (pr : R) (row : dict) :
  sensitivity_row P knr tax_rates m max_years lockup pr = Ok row ->
  row_shape tax_rates max_years row.
Proof.
  intros H. unfold sensitivity_row in H. apply row_loop in H.
  - destruct H as (cs & Hlen & Hok & ->). exists (CStr (return_label pr)), cs.
    repeat split; assumption.
  - assumption.
  - intros tr _ [Hkey | []]. simpl in Hkey.
    apply (tax_label_is_not_the_index tr). symmetry. exact Hkey.
Qed.

Lemma data_loop (prs : list R) (acc data : list dict) :
  Py.for_each prs
    (fun pr data =>
       row <- sensitivity_row P knr tax_rates m max_years lockup pr ;;
       Ok (data ++ [row])) acc = Ok data ->
  exists rows : list dict,
    data = acc ++ rows /\ List.length rows = List.length prs /\
    Forall (row_shape tax_rates max_years) rows.
Proof.
  revert acc. induction prs as [| pr prs IH]; intros acc H; simpl in H.
  - injection H as <-. exists []. rewrite app_nil_r. repeat split. constructor.
  - destruct (sensitivity_row P knr tax_rates m max_years lockup pr) as [row |] eqn:Hrow;
      [| discriminate].
    cbn [bind] in H. apply IH in H. destruct H as (rows & -> & Hlen & Hall).
    exists (row :: rows). rewrite <- app_assoc. split; [reflexivity |].
    split; [simpl; congruence |].
    constructor; [apply (sensitivity_row_shape pr); assumption | assumption].
Qed.

Lemma matrix_cells (prs : list R) (df : DataFrame) :
  prs <> [] ->
  generate_sensitivity_matrix P knr prs tax_rates m max_years lockup = Ok df ->
  List.length (cells df) = (List.length prs * List.length tax_rates)%nat /\
  Forall (cell_ok max_years) (cells df).
Proof.
  intros Hprs H. unfold generate_sensitivity_matrix in H.
  destruct (Py.for_each prs _ []) as [data |] eqn:Hdata; [| discriminate].
  cbn [bind] in H. apply data_loop in Hdata.
  destruct Hdata as (rows & -> & Hlen & Hall). simpl in H.
  assert (Hkeys : NoDup (index_key :: labels)).
  { constructor; [| assumption]. intros Hin. apply in_map_iff in Hin.
    destruct Hin as (tr & Htr & _). exact (tax_label_is_not_the_index tr Htr). }
  destruct (frame_of_uniform_records (index_key :: labels) rows Hkeys) as [Hcols Hvals].
  { destruct rows; [destruct prs; [contradiction | discriminate] | discriminate]. }
  { eapply Forall_impl; [| exact Hall].
    intros row (v & cs & Hcs & _ & ->). simpl. f_equal.
    apply keys_combine. rewrite length_map. assumption. }
  unfold set_index in H. rewrite Hcols, Hvals in H. simpl in H.
  injection H as <-. unfold cells. cbn [values].
  assert (Hrows : Forall (fun r => List.length r = List.length tax_rates /\
                                   Forall (cell_ok max_years) r)
                    (map (drop_nth 0) (map (map snd) rows))).
  { rewrite map_map. apply Forall_map. eapply Forall_impl; [| exact Hall].
    intros row (v & cs & Hcs & Hok & ->). simpl.
    rewrite values_combine by (rewrite length_map; assumption).
    split; assumption. }
  split.
  - rewrite (length_concat_uniform _ (List.length tax_rates)).
    + rewrite !length_map. f_equal. exact Hlen.
    + eapply Forall_impl; [| exact Hrows]. intros r [Hr _]. exact Hr.
  - apply Forall_concat. eapply Forall_impl; [| exact Hrows]. intros r [_ Hr]. exact Hr.
Qed.

End Matrix.

(** *** When the search and the matrix return *)

Section SearchReturns.

Variables (P knr pr tax m : R) (max_years lockup : Z).

Hypothesis Hlockup : (0 <= lockup)%Z.
Hypothesis Hknr : 0 < 1 + knr.
Hypothesis Hpr : 0 <= 1 + pr.
Hypothesis Hrate : m <= 0 \/ knr <> 0.

Lemma personal_reaches_keren_returns (kal : R) (yr : Z) :
  (lockup <= yr)%Z ->
  exists b : bool, personal_reaches_keren P knr pr tax m lockup kal yr = Ok b.
Proof.
  intros Hyr. unfold personal_reaches_keren.
  destruct (keren_fv_returns P knr yr m) as [kf ->]; [lia | assumption | assumption |].
  step_bind. rewrite pretax_is_keren, keren_fv_lump by (lia || (left; lra)).
  step_bind.
  destruct (aftertax_returns 0 pr (yr - lockup) tax m) as [ca ->]; [lia | assumption |].
  step_bind. eexists. reflexivity.
Qed.

Lemma first_hit_returns (kal : R) (yrs : list Z) :
  (forall yr, In yr yrs -> (lockup <= yr)%Z) ->
  exists be : option Z,
    Py.first_hit yrs (personal_reaches_keren P knr pr tax m lockup kal) = Ok be.
Proof.
  induction yrs as [| yr yrs IH]; intros Hyrs; simpl.
  - eexists. reflexivity.
  - destruct (personal_reaches_keren_returns kal yr) as [[|] ->];
      [apply Hyrs; left; reflexivity | |]; step_bind.
    + eexists. reflexivity.
    + apply IH. intros z Hz. apply Hyrs. right. assumption.
Qed.

(** With a fund return above -100%, a personal return from -100% upwards, and
    no zero fund return when there are contributions, the search returns. *)
Lemma find_breakeven_year_returns :
  exists be : option Z,
    find_breakeven_year P knr pr tax m max_years lockup = Ok be.
Proof.
  unfold find_breakeven_year.
  destruct (keren_fv_returns P knr lockup m) as [kal ->];
    [assumption | assumption | assumption |].
  step_bind. apply first_hit_returns.
  intros yr Hyr. apply in_range in Hyr. lia.
Qed.

End SearchReturns.

Section MatrixReturns.

Variables (P knr : R) (tax_rates : list R) (m : R) (max_years lockup : Z).

Hypothesis Hlockup : (0 <= lockup)%Z.
Hypothesis Hknr : 0 < 1 + knr.
Hypothesis Hrate : m <= 0 \/ knr <> 0.

Lemma row_returns (pr : R) (trs : list R) (d : dict) :
  0 <= 1 + pr ->
  exists row : dict,
    Py.for_each trs
      (fun tr row =>
         be_year <- find_breakeven_year P knr pr tr m max_years lockup ;;
         Ok (dict_set row (tax_label tr) (breakeven_cell be_year))) d = Ok row.
Proof.
  intros Hpr. revert d. induction trs as [| tr trs IH]; intros d; simpl.
  - eexists. reflexivity.
  - destruct (find_breakeven_year_returns P knr pr tr m max_years lockup) as [be ->];
      try assumption.
    step_bind. apply IH.
Qed.

Lemma data_returns (prs : list R) (acc : list dict) :
  (forall pr, In pr prs -> 0 <= 1 + pr) ->
  exists data : list dict,
    Py.for_each prs
      (fun pr data =>
         row <- sensitivity_row P knr tax_rates m max_years lockup pr ;;
         Ok (data ++ [row])) acc = Ok data.
Proof.
  revert acc. induction prs as [| pr prs IH]; intros acc Hprs; simpl.
  - eexists. reflexivity.
  - unfold sensitivity_row at 1.
    destruct (row_returns pr tax_rates [("Personal Return"%string, CStr (return_label pr))])
      as [row ->]; [apply Hprs; left; reflexivity |].
    step_bind. apply IH. intros z Hz. apply Hprs. right. assumption.
Qed.

(** With pairwise distinct labels and at least one personal return, the
    matrix is built. *)
Lemma matrix_returns (prs : list R) :
  prs <> [] -> NoDup (map tax_label tax_rates) ->
  (forall pr, In pr prs -> 0 <= 1 + pr) ->
  exists df : DataFrame,
    generate_sensitivity_matrix P knr prs tax_rates m max_years lockup = Ok df.
Proof.
  intros Hne Hnd Hprs. unfold generate_sensitivity_matrix.
  destruct (data_returns prs [] Hprs) as [data Hdata]. rewrite Hdata. step_bind.
  apply (data_loop P knr tax_rates m max_years lockup Hlockup Hnd) in Hdata.
  destruct Hdata as (rows & -> & Hlen & Hall). simpl.
  destruct (frame_of_uniform_records ("Personal Return"%string :: map tax_label tax_rates) rows)
    as [Hcols _].
  - constructor; [| assumption]. intros Hin. apply in_map_iff in Hin.
    destruct Hin as (tr & Htr & _). exact (tax_label_is_not_the_index tr Htr).
  - destruct rows; [destruct prs; [contradiction | discriminate] | discriminate].
  - eapply Forall_impl; [| exact Hall].
    intros row (v & cs & Hcs & _ & ->). simpl. f_equal.
    apply keys_combine. rewrite length_map. assumption.
  - unfold set_index. rewrite Hcols. simpl. eexists. reflexivity.
Qed.

End MatrixReturns.

(** C9 (as the code has it).  For at least one personal return, tax rates
    whose column labels are pairwise distinct and a lockup that is not
    negative, the matrix that is built has [len(personal_returns) *
    len(tax_rates)] cells, and every cell is a year from 1 to the search
    ceiling or the token [">50"]. *)
Theorem C9_sensitivity_matrix_cells
  (P knr : R) (personal_returns tax_rates : list R) (m : R)
  (max_years lockup : Z) (df : DataFrame) :
  personal_returns <> [] ->
  NoDup (map tax_label tax_rates) ->
  (0 <= lockup)%Z ->
  generate_sensitivity_matrix P knr personal_returns tax_rates m max_years lockup = Ok df ->
  List.length (cells df) =
    (List.length personal_returns * List.length tax_rates)%nat /\
  Forall (cell_ok max_years) (cells df).
Proof.
  intros Hne Hnd Hlock H.
  exact (matrix_cells P knr tax_rates m max_years lockup Hlock Hnd personal_returns df Hne H).
Qed.

Lemma tax_labels_of_grid :
  map tax_label [0.20; 0.25; 0.30] = ["Tax 20%"; "Tax 25%"; "Tax 30%"]%string.
Proof.
  simpl.
  rewrite (tax_label_percent 0.20 20), (tax_label_percent 0.25 25),
    (tax_label_percent 0.30 30) by (lra || lia).
  reflexivity.
Qed.

Lemma C9_sensitivity_matrix_cells_witness :
  exists df : DataFrame,
    [0.08; 0.10; 0.12] <> [] /\
    NoDup (map tax_label [0.20; 0.25; 0.30]) /\
    (0 <= 10)%Z /\
    generate_sensitivity_matrix 0 0.0762 [0.08; 0.10; 0.12] [0.20; 0.25; 0.30]
      1571 50 10 = Ok df /\
    List.length (cells df) = 9%nat /\
    Forall (cell_ok 50) (cells df).
Proof.
  assert (Hne : [0.08; 0.10; 0.12] <> []) by discriminate.
  assert (Hnd : NoDup (map tax_label [0.20; 0.25; 0.30])).
  { rewrite tax_labels_of_grid.
    repeat constructor; simpl; intuition discriminate. }
  assert (Hlock : (0 <= 10)%Z) by lia.
  destruct (matrix_returns 0 0.0762 [0.20; 0.25; 0.30] 1571 50 10 Hlock
              ltac:(lra) ltac:(right; lra) [0.08; 0.10; 0.12] Hne Hnd) as [df Hdf].
  { intros pr [<- | [<- | [<- | []]]]; lra. }
  exists df. split; [exact Hne |]. split; [exact Hnd |]. split; [exact Hlock |].
  split; [exact Hdf |].
  exact (C9_sensitivity_matrix_cells 0 0.0762 [0.08; 0.10; 0.12] [0.20; 0.25; 0.30]
           1571 50 10 df Hne Hnd Hlock Hdf).
Defined.

(** C9, as stated, fails: two tax rates with one label share one column, so a
    grid of one personal return and two tax rates gives one cell, not two. *)
Lemma C9_tax_rates_with_one_label_share_a_column :
  exists df : DataFrame,
    generate_sensitivity_matrix 0 0.0762 [0.10] [0.25; 0.25] 1571 50 10 = Ok df /\
    List.length (cells df) = 1%nat /\
    List.length (cells df) <> Nat.mul (List.length [0.10]) (List.length [0.25; 0.25]).
Proof.
  destruct (find_breakeven_year_returns 0 0.0762 0.10 0.25 1571 50 10) as [be Hbe];
    [lia | lra | lra | right; lra |].
  assert (Hrun :
    generate_sensitivity_matrix 0 0.0762 [0.10] [0.25; 0.25] 1571 50 10 =
    Ok {| index := [CStr (return_label 0.10)];
          columns := ["Tax 25%"%string];
          values := [[breakeven_cell be]] |}).
  { unfold generate_sensitivity_matrix, sensitivity_row. cbn [Py.for_each].
    rewrite Hbe. cbn [Py.for_each bind].
    rewrite (tax_label_percent 0.25 25) by (lra || lia).
    generalize (CStr (return_label 0.10)) (breakeven_cell be). intros v c.
    reflexivity. }
  eexists. split; [exact Hrun |]. split; [reflexivity |].
  cbn. discriminate.
Qed.

(** * Further properties *)

(** ** Lists and ranges *)

Section ListFacts.

Lemma nth_error_range (lo hi : Z) (i : nat) (x : Z) :
  nth_error (Py.range lo hi) i = Some x -> x = (lo + Z.of_nat i)%Z.
Proof.
  intros H.
  assert (Hi : (i < Z.to_nat (hi - lo))%nat).
  { rewrite <- range_length. apply nth_error_Some. rewrite H. discriminate. }
  unfold Py.range in H. rewrite nth_error_map, nth_error_seq in H.
  destruct (Nat.ltb_spec i (Z.to_nat (hi - lo))) as [_ | Hge]; [| lia].
  simpl in H. injection H as <-. reflexivity.
Qed.

(** [find] answers with the first element that passes. *)
Lemma find_first (A : Type) (p : A -> bool) (xs : list A) (x : A) :
  find p xs = Some x ->
  exists i : nat,
    nth_error xs i = Some x /\ p x = true /\
    forall (j : nat) (z : A), (j < i)%nat -> nth_error xs j = Some z -> p z = false.
Proof.
  induction xs as [| a xs IH]; simpl; [discriminate |].
  destruct (p a) eqn:Hpa.
  - intros H. injection H as <-. exists O. split; [reflexivity |].
    split; [assumption |]. intros j z Hj. lia.
  - intros H. destruct (IH H) as (i & Hi & Hpx & Hbefore).
    exists (S i). split; [exact Hi |]. split; [exact Hpx |].
    intros [| j] z Hj Hz; simpl in Hz.
    + injection Hz as <-. assumption.
    + apply (Hbefore j); [lia | assumption].
Qed.

Lemma last_item_nil (A : Type) (xs : list A) : last_item xs = None -> xs = [].
Proof.
  unfold last_item. intros H. apply nth_error_None in H.
  destruct xs as [| x xs]; [reflexivity | simpl in H; lia].
Qed.

Lemma last_item_in (A : Type) (xs : list A) (x : A) :
  last_item xs = Some x -> In x xs /\ nth_error xs (List.length xs - 1) = Some x.
Proof.
  unfold last_item. intros H. split; [eapply nth_error_In; exact H | exact H].
Qed.

Lemma for_each_raises (X S : Type) (pre post : list X) (x : X)
  (body : X -> S -> result S) (s s' : S) (e : exn) :
  Py.for_each pre body s = Ok s' -> body x s' = Raise e ->
  Py.for_each (pre ++ x :: post) body s = Raise e.
Proof.
  intros Hpre Hx. rewrite for_each_app, Hpre. cbn [bind Py.for_each].
  rewrite Hx. reflexivity.
Qed.

End ListFacts.

(** ** The yearly series *)

Section Series.

Variable inp : InvestmentInputs.

Local Abbreviation knr := (get_keren_net_return inp).
Local Abbreviation per := (get_personal_effective_return inp).
Local Abbreviation lockup := (keren_lockup_years inp).

Lemma comparison_step_recorded (kal : R) (yr : Z)
  (acc acc' : list YearlyResult) (be be' : option Z) :
  comparison_step inp knr per lockup kal yr (acc, be) = Ok (acc', be') ->
  exists res : YearlyResult, acc' = acc ++ [res] /\ recorded inp res.
Proof.
  unfold comparison_step, recorded. cbn [fst snd].
  destruct (calculate_keren_fv (principal inp) knr yr (monthly_contribution inp))
    as [kf |] eqn:Hkf; [step_bind | discriminate].
  destruct (yr <=? lockup)%Z.
  - step_bind. intros H. injection H as <- _.
    eexists. split; [reflexivity |]. cbn [keren_wins keren_fv personal_fv_aftertax year].
    split; [reflexivity | exact Hkf].
  - destruct (calculate_personal_fv_pretax kal per (yr - lockup) 0)
      as [lump |]; [step_bind | discriminate].
    destruct (calculate_personal_fv_pretax 0 per (yr - lockup) (monthly_contribution inp))
      as [cp |]; [step_bind | discriminate].
    destruct (calculate_personal_fv_aftertax 0 per (yr - lockup)
                (capital_gains_tax inp) (monthly_contribution inp))
      as [ca |]; [step_bind | discriminate].
    intros H. injection H as <- _.
    eexists. split; [reflexivity |]. cbn [keren_wins keren_fv personal_fv_aftertax year].
    split; [reflexivity | exact Hkf].
Qed.

Lemma comparison_loop_recorded (kal : R) (yrs : list Z)
  (acc acc' : list YearlyResult) (be be' : option Z) :
  Py.for_each yrs (comparison_step inp knr per lockup kal) (acc, be) = Ok (acc', be') ->
  Forall (recorded inp) acc -> Forall (recorded inp) acc'.
Proof.
  revert acc be. induction yrs as [| yr yrs IH]; intros acc be H Hacc; simpl in H.
  - injection H as <- _. assumption.
  - destruct (comparison_step inp knr per lockup kal yr (acc, be))
      as [[acc1 be1] |] eqn:Hstep; [| discriminate].
    cbn [bind] in H. apply comparison_step_recorded in Hstep.
    destruct Hstep as (res & -> & Hres).
    apply (IH _ _ H). apply Forall_app. split; [assumption |].
    constructor; [assumption | constructor].
Qed.

(** The break-even year is kept equal to the first year of the series, after
    the lockup, at which the fund does not win. *)
Lemma comparison_loop_breakeven (kal : R) (yrs : list Z)
  (acc acc' : list YearlyResult) (be be' : option Z) :
  Py.for_each yrs (comparison_step inp knr per lockup kal) (acc, be) = Ok (acc', be') ->
  be = first_personal_year lockup acc -> be' = first_personal_year lockup acc'.
Proof.
  revert acc be. induction yrs as [| yr yrs IH]; intros acc be H Hbe; simpl in H.
  - injection H as <- <-. assumption.
  - destruct (comparison_step inp knr per lockup kal yr (acc, be))
      as [[acc1 be1] |] eqn:Hstep; [| discriminate].
    cbn [bind] in H. apply comparison_step_spec in Hstep.
    destruct Hstep as (res & -> & Hyr & _ & _ & ->).
    apply (IH _ _ H). rewrite first_personal_year_snoc, Hyr, <- Hbe. reflexivity.
Qed.

Variable res : ComparisonResult.
Hypothesis Hrun : run_comparison inp = Ok res.

Lemma series_recorded : Forall (recorded inp) (yearly_results res).
Proof.
  destruct (run_comparison_inv inp res Hrun) as (kal & [acc be] & _ & Hloop & -> & _).
  apply (comparison_loop_recorded _ _ _ _ _ _ Hloop). constructor.
Qed.

Lemma series_breakeven :
  breakeven_year res = first_personal_year lockup (yearly_results res).
Proof.
  destruct (run_comparison_inv inp res Hrun) as (kal & [acc be] & _ & Hloop & -> & ->).
  apply (comparison_loop_breakeven _ _ _ _ _ _ Hloop). reflexivity.
Qed.

Lemma series_year_at (i : nat) (yr : YearlyResult) :
  nth_error (yearly_results res) i = Some yr ->
  year yr = (Z.of_nat i + 1)%Z /\ (Z.of_nat i < horizon_years inp)%Z.
Proof.
  intros H. destruct (run_comparison_years inp res Hrun) as [Hmap _].
  assert (Hnth : nth_error (Py.range 1 (horizon_years inp + 1)) i = Some (year yr)).
  { rewrite <- Hmap. apply map_nth_error. assumption. }
  split.
  - apply nth_error_range in Hnth. lia.
  - assert (Hin : In (year yr) (Py.range 1 (horizon_years inp + 1)))
      by (eapply nth_error_In; exact Hnth).
    apply in_range in Hin. apply nth_error_range in Hnth. lia.
Qed.

Lemma series_year_in (yr : YearlyResult) :
  In yr (yearly_results res) -> (1 <= year yr <= horizon_years inp)%Z.
Proof.
  intros Hin. apply In_nth_error in Hin. destruct Hin as [i Hi].
  apply series_year_at in Hi. lia.
Qed.

Lemma series_length :
  List.length (yearly_results res) = Z.to_nat (horizon_years inp).
Proof.
  destruct (run_comparison_years inp res Hrun) as [Hmap _].
  rewrite <- (length_map year), Hmap, range_length. f_equal. lia.
Qed.

Lemma series_last (yr : YearlyResult) :
  last_item (yearly_results res) = Some yr ->
  In yr (yearly_results res) /\ year yr = horizon_years inp.
Proof.
  intros H. apply last_item_in in H. destruct H as [Hin Hnth].
  split; [assumption |].
  pose proof (series_year_at _ _ Hnth) as [Hyear Hlt].
  rewrite series_length in Hyear.
  assert (0 < List.length (yearly_results res))%nat.
  { destruct (yearly_results res); [contradiction | simpl; lia]. }
  rewrite series_length in H. lia.
Qed.

End Series.

(** X1.  The yearly series of [run_comparison] has one result per year of the
    horizon (none for a horizon below 1), and the result at position [i] is
    the one of year [i + 1]. *)
Theorem X1_series_has_one_result_per_year
  (inp : InvestmentInputs) (res : ComparisonResult) :
  run_comparison inp = Ok res ->
  List.length (yearly_results res) = Z.to_nat (horizon_years inp) /\
  forall (i : nat) (yr : YearlyResult),
    nth_error (yearly_results res) i = Some yr -> year yr = (Z.of_nat i + 1)%Z.
Proof.
  intros Hrun. split.
  - apply series_length. assumption.
  - intros i yr Hi. apply (series_year_at inp res Hrun i yr Hi).
Qed.

Lemma X1_series_has_one_result_per_year_witness :
  exists res : ComparisonResult,
    run_comparison scenario = Ok res /\
    List.length (yearly_results res) = 20%nat.
Proof.
  destruct scenario_runs as [res Hres]. exists res. split; [exact Hres |].
  exact (proj1 (X1_series_has_one_result_per_year scenario res Hres)).
Defined.

(** X2.  A break-even year in the result of [run_comparison] is after the
    lockup and within the horizon; the series has a result at position
    [year - 1], it is the result of that year and the fund does not win in it;
    in every earlier year after the lockup the fund wins. *)
Theorem X2_breakeven_year_is_in_the_series
  (inp : InvestmentInputs) (res : ComparisonResult) (y : Z) :
  run_comparison inp = Ok res ->
  breakeven_year res = Some y ->
  (keren_lockup_years inp < y)%Z /\ (1 <= y <= horizon_years inp)%Z /\
  (exists yr : YearlyResult,
     nth_error (yearly_results res) (Z.to_nat (y - 1)) = Some yr /\
     year yr = y /\ keren_wins yr = false) /\
  (forall yr' : YearlyResult,
     In yr' (yearly_results res) ->
     (keren_lockup_years inp < year yr' < y)%Z -> keren_wins yr' = true).
Proof.
  intros Hrun Hbe. rewrite (series_breakeven inp res Hrun) in Hbe.
  unfold first_personal_year in Hbe.
  destruct (find _ (yearly_results res)) as [yr |] eqn:Hfind; [| discriminate].
  simpl in Hbe. injection Hbe as Hy.
  apply find_first in Hfind. destruct Hfind as (i & Hi & Hp & Hbefore).
  apply andb_prop in Hp. destruct Hp as [Hlt Hwins].
  apply Z.ltb_lt in Hlt. apply negb_true_iff in Hwins.
  destruct (series_year_at inp res Hrun i yr Hi) as [Hyear Hbound].
  split; [lia |]. split; [lia |]. split.
  - exists yr. replace (Z.to_nat (y - 1)) with i by lia. repeat split; assumption.
  - intros yr' Hin' [Hlo Hhi]. apply In_nth_error in Hin'. destruct Hin' as [j Hj].
    destruct (series_year_at inp res Hrun j yr' Hj) as [Hyear' _].
    assert (Hp' := Hbefore j yr' ltac:(lia) Hj).
    apply andb_false_iff in Hp'. destruct Hp' as [Hp' | Hp'].
    + apply Z.ltb_ge in Hp'. lia.
    + apply negb_false_iff in Hp'. assumption.
Qed.

Lemma series_keren_wins
  (inp : InvestmentInputs) (res : ComparisonResult) (yr : YearlyResult) :
  run_comparison inp = Ok res ->
  In yr (yearly_results res) ->
  (keren_wins yr = true <-> difference yr < 0).
Proof.
  intros Hrun Hin.
  pose proof (series_recorded inp res Hrun) as Hall.
  rewrite Forall_forall in Hall. destruct (Hall yr Hin) as [Hflag _].
  rewrite Hflag. unfold difference, Py.gt.
  destruct (Rlt_dec (personal_fv_aftertax yr) (keren_fv yr)); split; intros H;
    try reflexivity; try discriminate; lra.
Qed.

(** X3.  In every result of the series the flag says what the values say:
    [keren_wins] exactly when the fund value is above the personal post-tax
    value, that is when the difference is negative. *)
Theorem X3_keren_wins_follows_the_values
  (inp : InvestmentInputs) (res : ComparisonResult) (yr : YearlyResult) :
  run_comparison inp = Ok res ->
  In yr (yearly_results res) ->
  (keren_wins yr = true <-> difference yr < 0).
Proof.
  intros Hrun Hin. apply (series_keren_wins inp res yr); assumption.
Qed.

Lemma X3_keren_wins_follows_the_values_witness :
  exists (res : ComparisonResult) (yr : YearlyResult),
    run_comparison scenario = Ok res /\ In yr (yearly_results res) /\
    (keren_wins yr = true <-> difference yr < 0).
Proof.
  destruct scenario_runs as [res Hres].
  destruct (scenario_first_year res Hres) as (yr & Hin & _).
  exists res, yr. split; [exact Hres |]. split; [exact Hin |].
  exact (X3_keren_wins_follows_the_values scenario res yr Hres Hin).
Defined.

(** X4.  While the lockup lasts the two paths are tied, and a tie is recorded
    as the fund not winning: in every result of a year up to the lockup
    [keren_wins] is false, the difference is 0 and the percentage is 0. *)
Theorem X4_locked_years_are_ties_the_fund_does_not_win
  (inp : InvestmentInputs) (res : ComparisonResult) (yr : YearlyResult) :
  run_comparison inp = Ok res ->
  In yr (yearly_results res) ->
  (year yr <= keren_lockup_years inp)%Z ->
  keren_wins yr = false /\ difference yr = 0 /\ difference_pct yr = Ok 0.
Proof.
  intros Hrun Hin Hle.
  destruct (run_comparison_years inp res Hrun) as [_ Hlocked].
  rewrite Forall_forall in Hlocked. destruct (Hlocked yr Hin Hle) as [_ Hafter].
  pose proof (series_recorded inp res Hrun) as Hall.
  rewrite Forall_forall in Hall. destruct (Hall yr Hin) as [Hflag _].
  split; [| split].
  - rewrite Hflag. apply gt_false. lra.
  - unfold difference. lra.
  - unfold difference_pct. rewrite Hafter.
    destruct (Req_dec_T (keren_fv yr) 0) as [H0 | H0].
    + rewrite eq_true by assumption. reflexivity.
    + rewrite eq_false, true_div_ok by assumption. step_bind.
      f_equal. field. assumption.
Qed.

Lemma X4_locked_years_are_ties_the_fund_does_not_win_witness :
  exists (res : ComparisonResult) (yr : YearlyResult),
    run_comparison scenario = Ok res /\ In yr (yearly_results res) /\
    (year yr <= keren_lockup_years scenario)%Z /\
    keren_wins yr = false /\ difference yr = 0 /\ difference_pct yr = Ok 0.
Proof.
  destruct scenario_runs as [res Hres].
  destruct (scenario_first_year res Hres) as (yr & Hin & Hyr).
  assert (Hle : (year yr <= keren_lockup_years scenario)%Z) by (rewrite Hyr; cbn; lia).
  exists res, yr. split; [exact Hres |]. split; [exact Hin |]. split; [exact Hle |].
  exact (X4_locked_years_are_ties_the_fund_does_not_win scenario res yr Hres Hin Hle).
Defined.

(** ** Two runs evaluated *)

Lemma aftertax_nothing_paid (r : R) (y : Z) (tax : R) :
  calculate_personal_fv_aftertax 0 r y tax 0 = Ok (0 + 0).
Proof.
  unfold calculate_personal_fv_aftertax.
  rewrite (gt_false 0 0) by lra. reflexivity.
Qed.

Ltac run_lump :=
  repeat first
    [ rewrite pretax_is_keren
    | rewrite aftertax_nothing_paid
    | rewrite keren_fv_lump by (lia || (left; lra))
    | progress cbn [bind fst snd Py.for_each Z.leb Z.ltb Z.compare Pos.compare
                    Pos.compare_cont negb andb Z.sub Z.add Z.opp Z.pos_sub
                    Pos.pred_double Z.succ_double Z.pred_double Z.double
                    Pos.add Pos.succ] ].

Ltac unfold_run inputs :=
  unfold run_comparison, comparison_step, get_keren_net_return,
    get_personal_effective_return;
  cbn [inputs principal monthly_contribution keren_gross_return keren_mgmt_fee
       keren_return_is_net personal_return capital_gains_tax annual_tax_drag
       include_tax_drag horizon_years keren_lockup_years];
  change (Py.range 1 (2 + 1)) with [1%Z; 2%Z];
  run_lump.

(** With a personal return of 10% the personal path is ahead in year 2. *)
Lemma quick_scenario_runs :
  exists res : ComparisonResult,
    run_comparison quick_scenario = Ok res /\
    breakeven_year res = Some 2%Z /\ 0 < final_difference res.
Proof.
  unfold_run quick_scenario.
  eexists. split; [reflexivity |]. split.
  - cbn [breakeven_year]. rewrite !gt_false by (simpl; lra). reflexivity.
  - unfold final_difference, final_personal_fv, final_keren_fv, last_item.
    cbn [yearly_results app List.length Nat.sub nth_error
         personal_fv_aftertax keren_fv].
    simpl. lra.
Qed.

(** With a personal return of 0% the fund stays ahead. *)
Lemma slow_scenario_runs :
  exists res : ComparisonResult,
    run_comparison slow_scenario = Ok res /\ breakeven_year res = None.
Proof.
  unfold_run slow_scenario.
  eexists. split; [reflexivity |].
  cbn [breakeven_year]. rewrite gt_false by (simpl; lra).
  rewrite gt_true by (simpl; lra). reflexivity.
Qed.

Lemma X2_breakeven_year_is_in_the_series_witness :
  exists res : ComparisonResult,
    run_comparison quick_scenario = Ok res /\
    breakeven_year res = Some 2%Z /\
    (keren_lockup_years quick_scenario < 2)%Z /\
    (1 <= 2 <= horizon_years quick_scenario)%Z.
Proof.
  destruct quick_scenario_runs as (res & Hres & Hbe & _).
  exists res. split; [exact Hres |]. split; [exact Hbe |].
  destruct (X2_breakeven_year_is_in_the_series quick_scenario res 2 Hres Hbe)
    as (Hlock & Hrange & _).
  split; [exact Hlock | exact Hrange].
Defined.

(** ** The summary of a comparison *)

(** X5.  With a horizon that ends within the lockup (or is below 1) the
    summary of [run_comparison] is a tie: the final difference is 0 and
    [winner_at_horizon] is ["Tie"]. *)
Theorem X5_horizon_within_lockup_is_a_tie
  (inp : InvestmentInputs) (res : ComparisonResult) :
  run_comparison inp = Ok res ->
  (horizon_years inp <= keren_lockup_years inp)%Z ->
  final_difference res = 0 /\ winner_at_horizon res = "Tie"%string.
Proof.
  intros Hrun Hle.
  assert (Hdiff : final_difference res = 0).
  { unfold final_difference, final_personal_fv, final_keren_fv.
    destruct (last_item (yearly_results res)) as [yr |] eqn:Hlast; [| lra].
    destruct (series_last inp res Hrun yr Hlast) as [Hin Hyear].
    destruct (run_comparison_years inp res Hrun) as [_ Hlocked].
    rewrite Forall_forall in Hlocked.
    destruct (Hlocked yr Hin ltac:(lia)) as [_ Hafter]. lra. }
  split; [exact Hdiff |].
  unfold winner_at_horizon, float_lt. rewrite Hdiff, gt_false by lra.
  destruct (Rlt_dec 0 0); [lra | reflexivity].
Qed.

Lemma X5_horizon_within_lockup_is_a_tie_witness :
  exists res : ComparisonResult,
    run_comparison short_scenario = Ok res /\
    (horizon_years short_scenario <= keren_lockup_years short_scenario)%Z /\
    winner_at_horizon res = "Tie"%string.
Proof.
  assert (Hle : (horizon_years short_scenario <= keren_lockup_years short_scenario)%Z)
    by (cbn; lia).
  assert (Hlock : (0 <= keren_lockup_years short_scenario)%Z) by (cbn; lia).
  assert (Hknr : 0 < 1 + get_keren_net_return short_scenario)
    by (unfold get_keren_net_return; cbn; lra).
  assert (Hper : 0 < 1 + get_personal_effective_return short_scenario)
    by (unfold get_personal_effective_return; cbn; lra).
  assert (Hm : monthly_contribution short_scenario <= 0 \/
               (get_keren_net_return short_scenario <> 0 /\
                get_personal_effective_return short_scenario <> 0))
    by (left; cbn; lra).
  destruct (run_comparison_returns short_scenario Hlock Hknr Hper Hm) as [res Hres].
  exists res. split; [exact Hres |]. split; [exact Hle |].
  exact (proj2 (X5_horizon_within_lockup_is_a_tie short_scenario res Hres Hle)).
Defined.

(** X6.  If the horizon goes beyond the lockup and [run_comparison] records no
    break-even year, the fund wins at the horizon. *)
Theorem X6_no_breakeven_means_the_fund_wins
  (inp : InvestmentInputs) (res : ComparisonResult) :
  run_comparison inp = Ok res ->
  (keren_lockup_years inp < horizon_years inp)%Z ->
  (1 <= horizon_years inp)%Z ->
  breakeven_year res = None ->
  winner_at_horizon res = "Keren Hishtalmut"%string.
Proof.
  intros Hrun Hlt Hh Hbe.
  destruct (last_item (yearly_results res)) as [yr |] eqn:Hlast.
  - destruct (series_last inp res Hrun yr Hlast) as [Hin Hyear].
    rewrite (series_breakeven inp res Hrun) in Hbe. unfold first_personal_year in Hbe.
    destruct (find _ (yearly_results res)) as [z |] eqn:Hfind; [discriminate |].
    pose proof (find_none _ _ Hfind yr Hin) as Hp. cbn beta in Hp.
    replace (keren_lockup_years inp <? year yr)%Z with true in Hp
      by (symmetry; apply Z.ltb_lt; lia).
    cbn [andb] in Hp. apply negb_false_iff in Hp.
    apply (series_keren_wins inp res yr Hrun Hin) in Hp.
    unfold difference in Hp.
    unfold winner_at_horizon, final_difference, final_personal_fv, final_keren_fv, float_lt.
    rewrite Hlast, gt_false by lra.
    destruct (Rlt_dec (personal_fv_aftertax yr - keren_fv yr) 0); [reflexivity | lra].
  - apply last_item_nil in Hlast.
    pose proof (series_length inp res Hrun) as Hlen. rewrite Hlast in Hlen.
    simpl in Hlen. lia.
Qed.

Lemma X6_no_breakeven_means_the_fund_wins_witness :
  exists res : ComparisonResult,
    run_comparison slow_scenario = Ok res /\
    breakeven_year res = None /\
    winner_at_horizon res = "Keren Hishtalmut"%string.
Proof.
  destruct slow_scenario_runs as (res & Hres & Hbe).
  exists res. split; [exact Hres |]. split; [exact Hbe |].
  refine (X6_no_breakeven_means_the_fund_wins slow_scenario res Hres _ _ Hbe); cbn; lia.
Defined.

(** X7.  If the personal path is ahead at the horizon, a break-even year has
    been recorded. *)
Theorem X7_personal_winner_has_a_breakeven_year
  (inp : InvestmentInputs) (res : ComparisonResult) :
  run_comparison inp = Ok res ->
  0 < final_difference res ->
  exists y : Z, breakeven_year res = Some y.
Proof.
  intros Hrun Hdiff.
  unfold final_difference, final_personal_fv, final_keren_fv in Hdiff.
  destruct (last_item (yearly_results res)) as [yr |] eqn:Hlast; [| lra].
  destruct (series_last inp res Hrun yr Hlast) as [Hin Hyear].
  rewrite (series_breakeven inp res Hrun). unfold first_personal_year.
  destruct (find _ (yearly_results res)) as [z |] eqn:Hfind.
  - exists (year z). reflexivity.
  - exfalso. pose proof (find_none _ _ Hfind yr Hin) as Hp. cbn beta in Hp.
    apply andb_false_iff in Hp. destruct Hp as [Hp | Hp].
    + apply Z.ltb_ge in Hp.
      destruct (run_comparison_years inp res Hrun) as [_ Hlocked].
      rewrite Forall_forall in Hlocked. destruct (Hlocked yr Hin Hp) as [_ Hafter]. lra.
    + apply negb_false_iff in Hp.
      apply (series_keren_wins inp res yr Hrun Hin) in Hp.
      unfold difference in Hp. lra.
Qed.

Lemma X7_personal_winner_has_a_breakeven_year_witness :
  exists res : ComparisonResult,
    run_comparison quick_scenario = Ok res /\
    0 < final_difference res /\
    exists y : Z, breakeven_year res = Some y.
Proof.
  destruct quick_scenario_runs as (res & Hres & _ & Hdiff).
  exists res. split; [exact Hres |]. split; [exact Hdiff |].
  exact (X7_personal_winner_has_a_breakeven_year quick_scenario res Hres Hdiff).
Defined.

(** X8.  For a horizon of at least one year, the final fund value of the
    summary is the valuation of the fund at the horizon. *)
Theorem X8_final_fund_value_is_the_valuation_at_the_horizon
  (inp : InvestmentInputs) (res : ComparisonResult) :
  run_comparison inp = Ok res ->
  (1 <= horizon_years inp)%Z ->
  calculate_keren_fv (principal inp) (get_keren_net_return inp) (horizon_years inp)
    (monthly_contribution inp) = Ok (final_keren_fv res).
Proof.
  intros Hrun Hh. unfold final_keren_fv.
  destruct (last_item (yearly_results res)) as [yr |] eqn:Hlast.
  - destruct (series_last inp res Hrun yr Hlast) as [Hin Hyear].
    pose proof (series_recorded inp res Hrun) as Hall.
    rewrite Forall_forall in Hall. destruct (Hall yr Hin) as [_ Hfv].
    rewrite <- Hyear. exact Hfv.
  - apply last_item_nil in Hlast.
    pose proof (series_length inp res Hrun) as Hlen. rewrite Hlast in Hlen.
    simpl in Hlen. lia.
Qed.

Lemma X8_final_fund_value_is_the_valuation_at_the_horizon_witness :
  exists res : ComparisonResult,
    run_comparison scenario = Ok res /\
    (1 <= horizon_years scenario)%Z /\
    calculate_keren_fv (principal scenario) (get_keren_net_return scenario)
      (horizon_years scenario) (monthly_contribution scenario) =
    Ok (final_keren_fv res).
Proof.
  destruct scenario_runs as [res Hres].
  assert (Hh : (1 <= horizon_years scenario)%Z) by (cbn; lia).
  exists res. split; [exact Hres |]. split; [exact Hh |].
  exact (X8_final_fund_value_is_the_valuation_at_the_horizon scenario res Hres Hh).
Defined.

(** ** Where the orchestrator raises *)

Section ZeroPersonalReturn.

Variable inp : InvestmentInputs.

Local Abbreviation knr := (get_keren_net_return inp).
Local Abbreviation per := (get_personal_effective_return inp).
Local Abbreviation lockup := (keren_lockup_years inp).

Hypothesis Hm : 0 < monthly_contribution inp.
Hypothesis Hknr : 0 < 1 + knr.
Hypothesis Hknr0 : knr <> 0.

Lemma locked_loop_returns (kal : R) (yrs : list Z) (st : comparison_state) :
  (forall yr, In yr yrs -> (0 <= yr <= lockup)%Z) ->
  exists st' : comparison_state,
    Py.for_each yrs (comparison_step inp knr per lockup kal) st = Ok st'.
Proof.
  revert st. induction yrs as [| yr yrs IH]; intros st Hyrs; simpl.
  - eexists. reflexivity.
  - assert (Hyr : (0 <= yr <= lockup)%Z) by (apply Hyrs; left; reflexivity).
    unfold comparison_step at 1.
    destruct (keren_fv_returns (principal inp) knr yr (monthly_contribution inp))
      as [kf ->]; [lia | assumption | right; assumption |].
    step_bind.
    replace (yr <=? lockup)%Z with true by (symmetry; apply Z.leb_le; lia).
    step_bind. apply IH. intros z Hz. apply Hyrs. right. assumption.
Qed.

Hypothesis Hper : per = 0.

(** The first year after the lockup values the new contributions before tax
    at a zero rate. *)
Lemma unlocked_step_raises (kal : R) (yr : Z) (st : comparison_state) :
  (0 <= lockup < yr)%Z ->
  comparison_step inp knr per lockup kal yr st = Raise ZeroDivisionError.
Proof.
  intros Hyr. unfold comparison_step.
  destruct (keren_fv_returns (principal inp) knr yr (monthly_contribution inp))
    as [kf ->]; [lia | assumption | right; assumption |].
  step_bind.
  replace (yr <=? lockup)%Z with false by (symmetry; apply Z.leb_gt; lia).
  rewrite pretax_is_keren, keren_fv_lump by (lia || (left; lra)). step_bind.
  rewrite pretax_is_keren, Hper, zero_annual_rate_raises by (assumption || lia).
  reflexivity.
Qed.

Lemma zero_personal_return_raises :
  (0 <= lockup < horizon_years inp)%Z ->
  run_comparison inp = Raise ZeroDivisionError.
Proof.
  intros Hh. unfold run_comparison.
  destruct (keren_fv_returns (principal inp) knr lockup (monthly_contribution inp))
    as [kal ->]; [lia | assumption | right; assumption |].
  step_bind.
  rewrite (range_split 1 (lockup + 1) (horizon_years inp + 1)) by lia.
  rewrite (range_cons (lockup + 1)) by lia.
  destruct (locked_loop_returns kal (Py.range 1 (lockup + 1)) ([], None))
    as [st Hst]; [intros yr Hyr; apply in_range in Hyr; lia |].
  rewrite (for_each_raises _ _ _ _ _ _ _ st ZeroDivisionError Hst);
    [reflexivity |].
  apply unlocked_step_raises. lia.
Qed.

End ZeroPersonalReturn.

(** X9.  With monthly contributions, a fund return above -100% and not zero,
    an effective personal return of exactly zero and a horizon beyond a
    lockup that is not negative, [run_comparison] raises [ZeroDivisionError]:
    the contributions made after the lockup are valued before tax at a zero
    monthly rate. *)
Theorem X9_zero_personal_return_stops_the_comparison (inp : InvestmentInputs) :
  0 < monthly_contribution inp ->
  0 < 1 + get_keren_net_return inp ->
  get_keren_net_return inp <> 0 ->
  get_personal_effective_return inp = 0 ->
  (0 <= keren_lockup_years inp < horizon_years inp)%Z ->
  run_comparison inp = Raise ZeroDivisionError.
Proof.
  intros Hm Hknr Hknr0 Hper Hh.
  apply zero_personal_return_raises; assumption.
Qed.

Lemma X9_zero_personal_return_stops_the_comparison_witness :
  0 < monthly_contribution flat_scenario /\
  get_personal_effective_return flat_scenario = 0 /\
  run_comparison flat_scenario = Raise ZeroDivisionError.
Proof.
  assert (Hm : 0 < monthly_contribution flat_scenario) by (cbn; lra).
  assert (Hper : get_personal_effective_return flat_scenario = 0) by reflexivity.
  split; [exact Hm |]. split; [exact Hper |].
  apply (X9_zero_personal_return_stops_the_comparison flat_scenario Hm);
    [ unfold get_keren_net_return; cbn; lra
    | unfold get_keren_net_return; cbn; lra
    | exact Hper
    | cbn; lia ].
Defined.

(** ** More on the required return *)

Section RequiredReturnMore.

(** The root undoes the power. *)
Lemma pow_root (x : R) (n : nat) :
  0 < x -> (0 < n)%nat -> Rpower (x ^ n) (1 / INR n) = x.
Proof.
  intros Hx Hn. rewrite <- Rpower_pow by assumption.
  rewrite Rpower_mult.
  replace (INR n * (1 / INR n)) with 1.
  - apply Rpower_1. assumption.
  - field. apply not_0_INR. lia.
Qed.

Lemma years_as_nat (years : Z) :
  (1 <= years)%Z -> IZR years = INR (Z.to_nat years) /\ (0 < Z.to_nat years)%nat.
Proof.
  intros H. split; [| lia]. rewrite INR_IZR_INZ, Z2Nat.id by lia. reflexivity.
Qed.


(** Whatever the inversion raises is a division by zero. *)
Lemma required_return_raises_zero_division (k tax : R) (years : Z) (e : exn) :
  calculate_required_return k tax years = Raise e -> e = ZeroDivisionError.
Proof.
  unfold calculate_required_return, Py.pow_int, Py.true_div.
  destruct (0 <=? years)%Z; [| destruct (Req_dec_T (1 + k) 0)];
    step_bind; try (intros H; injection H as <-; reflexivity);
    match goal with
    | |- context [Py.le (1 - tax) 0 || Py.le ?n 0] =>
        destruct (Rle_dec (1 - tax) 0) as [Hd | Hd];
        [ rewrite (le_true _ _ Hd); discriminate | rewrite le_false by lra ];
        destruct (Rle_dec n 0) as [Hn | Hn];
        [ rewrite (le_true _ _ Hn); discriminate | rewrite le_false by lra ];
        cbn [orb];
        destruct (Req_dec_T (1 - tax) 0); [lra |]; step_bind;
        destruct (Req_dec_T (IZR years) 0);
        [ step_bind; intros H; injection H as <-; reflexivity |];
        step_bind;
        rewrite pow_float_pos by (apply Rdiv_lt_0_compat; lra);
        step_bind; discriminate
    end.
Qed.

Lemma required_return_zero_years (k tax : R) :
  calculate_required_return k tax 0 =
  if Py.le 1 tax then Ok Infinity else Raise ZeroDivisionError.
Proof.
  unfold calculate_required_return.
  rewrite pow_int_nonneg by lia. step_bind.
  change (Z.to_nat 0) with O. cbn [pow].
  destruct (Rle_dec 1 tax) as [Ht | Ht].
  - rewrite (le_true 1 tax Ht), (le_true (1 - tax) 0) by lra. reflexivity.
  - rewrite (le_false 1 tax), !le_false by lra. cbn [orb].
    rewrite true_div_ok by lra. step_bind.
    rewrite true_div_zero by reflexivity. reflexivity.
Qed.

Lemma table_loop_raises (k tax : R) (horizons : list Z)
  (acc : list RequiredReturnResult.t) :
  tax < 1 -> In 0%Z horizons ->
  Py.for_each horizons
    (fun years results =>
       required <- calculate_required_return k tax years ;;
       Ok (results ++
             [ {| RequiredReturnResult.horizon_years := years;
                  RequiredReturnResult.keren_net_return := k;
                  RequiredReturnResult.tax_rate := tax;
                  RequiredReturnResult.required_personal_return := required;
                  RequiredReturnResult.alpha_required := xfloat_sub required k |} ]))
    acc = Raise ZeroDivisionError.
Proof.
  intros Htax. revert acc.
  induction horizons as [| years horizons IH]; intros acc Hin; [contradiction |].
  simpl. destruct (calculate_required_return k tax years) as [required | e] eqn:Hreq.
  - step_bind. apply IH. destruct Hin as [-> | Hin]; [| assumption].
    rewrite required_return_zero_years, le_false in Hreq by lra. discriminate.
  - step_bind. apply required_return_raises_zero_division in Hreq. rewrite Hreq.
    reflexivity.
Qed.


End RequiredReturnMore.

(** X10.  Without tax the required return is the fund's own return: for a
    fund return above -100% and a horizon of at least one year,
    [calculate_required_return] at a tax rate of 0 gives the fund return
    back. *)
Theorem X10_untaxed_required_return_is_the_fund_return (k : R) (years : Z) :
  0 < 1 + k -> (1 <= years)%Z ->
  calculate_required_return k 0 years = Ok (Finite k).
Proof.
  intros Hk Hy. destruct (years_as_nat years Hy) as [Hnat Hpos].
  assert (Hpow : 0 < (1 + k) ^ Z.to_nat years) by (apply pow_lt; assumption).
  rewrite required_return_finite by (assumption || lra).
  replace (((1 + k) ^ Z.to_nat years - 0) / (1 - 0)) with ((1 + k) ^ Z.to_nat years)
    by (field; lra).
  rewrite Hnat, pow_root by assumption. do 2 f_equal. lra.
Qed.

Lemma X10_untaxed_required_return_is_the_fund_return_witness :
  0 < 1 + 0.0762 /\ (1 <= 10)%Z /\
  calculate_required_return 0.0762 0 10 = Ok (Finite 0.0762).
Proof.
  split; [lra |]. split; [lia |].
  apply (X10_untaxed_required_return_is_the_fund_return 0.0762 10); [lra | lia].
Defined.



(** X12.  A horizon of zero years: for a tax rate below 1 the inversion
    divides by the horizon and raises [ZeroDivisionError] (for a tax rate of 1
    or more it answers infinity before it gets there), and a list of horizons
    with a 0 in it makes the whole table raise. *)
Theorem X12_zero_horizon_stops_the_required_return_table
  (k tax : R) (horizons : list Z) :
  tax < 1 ->
  calculate_required_return k tax 0 = Raise ZeroDivisionError /\
  (In 0%Z horizons ->
   generate_required_return_table k tax horizons = Raise ZeroDivisionError).
Proof.
  intros Htax. split.
  - rewrite required_return_zero_years, le_false by lra. reflexivity.
  - intros Hin. apply table_loop_raises; assumption.
Qed.

Lemma X12_zero_horizon_stops_the_required_return_table_witness :
  0.25 < 1 /\
  generate_required_return_table 0.0762 0.25 [5; 0; 10]%Z = Raise ZeroDivisionError.
Proof.
  assert (Htax : 0.25 < 1) by lra.
  split; [exact Htax |].
  apply (X12_zero_horizon_stops_the_required_return_table 0.0762 0.25 [5; 0; 10]%Z Htax).
  simpl. tauto.
Defined.

(** ** Growth and tax in the valuations *)

Section Growth.

Lemma twelfth_root_above_one (x : R) : 1 < x -> 1 < Rpower x (1 / 12).
Proof.
  intros Hx. apply Rnot_le_lt. intros Hle.
  assert (Hq : 0 < Rpower x (1 / 12)) by (unfold Rpower; apply exp_pos).
  assert (Hpow : Rpower x (1 / 12) ^ 12 <= 1 ^ 12) by (apply pow_incr; lra).
  rewrite twelfth_root_pow, pow1 in Hpow by lra. lra.
Qed.

(** The monthly rate of an annual rate that is not negative is not negative. *)
Lemma monthly_rate_nonneg (r : R) :
  0 <= r -> exists q : R, Py.pow_float (1 + r) (1 / 12) = Ok q /\ 1 <= q.
Proof.
  intros [Hr | <-].
  - exists (Rpower (1 + r) (1 / 12)). split; [apply pow_float_pos; lra |].
    apply Rlt_le, twelfth_root_above_one. lra.
  - exists 1. split; [| lra]. replace (1 + 0) with 1 by lra. apply pow_float_one.
Qed.

Lemma Rsum_at_least (X : Type) (c : R) (f : X -> R) (xs : list X) :
  (forall x, In x xs -> c <= f x) -> c * INR (List.length xs) <= Rsum f xs.
Proof.
  induction xs as [| x xs IH]; intros H.
  - simpl. lra.
  - change (Rsum f (x :: xs)) with (f x + Rsum f xs).
    change (List.length (x :: xs)) with (S (List.length xs)). rewrite S_INR.
    assert (c <= f x) by (apply H; left; reflexivity).
    assert (c * INR (List.length xs) <= Rsum f xs)
      by (apply IH; intros z Hz; apply H; right; assumption).
    lra.
Qed.

(** The sum of the contributions after tax is linear in the tax rate. *)
Lemma contributions_linear_in_tax (y : Z) (tax m i : R) (months : list Z) :
  Rsum (contribution_after_tax y tax m i) months =
  tax * (m * INR (List.length months)) +
  (1 - tax) * Rsum (contribution_after_tax y 0 m i) months.
Proof.
  induction months as [| month months IH].
  - simpl. lra.
  - change (Rsum (contribution_after_tax y tax m i) (month :: months))
      with (contribution_after_tax y tax m i month +
            Rsum (contribution_after_tax y tax m i) months).
    change (Rsum (contribution_after_tax y 0 m i) (month :: months))
      with (contribution_after_tax y 0 m i month +
            Rsum (contribution_after_tax y 0 m i) months).
    change (List.length (month :: months)) with (S (List.length months)).
    rewrite S_INR, IH. unfold contribution_after_tax. ring.
Qed.

Lemma months_of_years (y : Z) :
  (0 <= y)%Z -> INR (List.length (Py.range 1 (y * 12 + 1))) = IZR (12 * y).
Proof.
  intros Hy. rewrite range_length, INR_IZR_INZ, Z2Nat.id by lia.
  f_equal. lia.
Qed.

(** The post-tax valuation at any tax rate, from the one at a zero rate. *)
Lemma aftertax_from_zero_tax (P r : R) (y : Z) (tax m : R) :
  0 <= P -> -1 <= r -> (0 <= y)%Z -> 0 <= m ->
  exists v0 : R,
    calculate_personal_fv_aftertax P r y 0 m = Ok v0 /\
    calculate_personal_fv_aftertax P r y tax m =
    Ok (tax * paid_in P m y + (1 - tax) * v0).
Proof.
  intros HP Hr Hy Hm. unfold calculate_personal_fv_aftertax, paid_in.
  rewrite pow_int_nonneg by assumption.
  destruct (twelfth_root_defined (1 + r)) as [q ->]; [lra |].
  destruct (Rle_lt_dec P 0) as [HP0 | HP0];
    [rewrite !(gt_false P 0) by assumption | rewrite !(gt_true P 0) by assumption];
    step_bind;
    (destruct (Rle_lt_dec m 0) as [Hm0 | Hm0];
     [ rewrite !(gt_false m 0) by assumption; cbn [andb]; step_bind;
       eexists; split; [reflexivity |]; f_equal;
       replace m with 0 by lra; try replace P with 0 by lra; ring
     | rewrite !(gt_true m 0) by assumption; cbn [andb];
       destruct (Z.ltb_spec 0 y) as [Hy0 | Hy0]; step_bind;
       [ rewrite !contributions_loop; step_bind;
         eexists; split; [reflexivity |]; f_equal;
         rewrite (contributions_linear_in_tax y tax), months_of_years by assumption;
         try replace P with 0 by lra; ring
       | eexists; split; [reflexivity |]; f_equal;
         replace y with 0%Z by lia; try replace P with 0 by lra; simpl; ring ] ]).
Qed.

(** At a zero tax rate and a return that is not negative, the post-tax
    valuation is worth at least what was paid in. *)
Lemma zero_tax_at_least_paid_in (P r : R) (y : Z) (m v0 : R) :
  0 <= P -> 0 <= r -> (0 <= y)%Z -> 0 <= m ->
  calculate_personal_fv_aftertax P r y 0 m = Ok v0 -> paid_in P m y <= v0.
Proof.
  intros HP Hr Hy Hm. unfold calculate_personal_fv_aftertax, paid_in.
  rewrite pow_int_nonneg by assumption.
  destruct (monthly_rate_nonneg r Hr) as (q & -> & Hq).
  assert (Hg : 1 <= (1 + r) ^ Z.to_nat y) by (apply pow_R1_Rle; lra).
  assert (Hlump : forall lump,
    (if Py.gt P 0 then Ok (P + (P * (1 + r) ^ Z.to_nat y - P) * (1 - 0)) else Ok 0)
    = Ok lump -> P <= lump).
  { intros lump. destruct (Rle_lt_dec P 0) as [HP0 | HP0].
    - rewrite gt_false by assumption. intros H. injection H as <-. lra.
    - rewrite gt_true by assumption. intros H. injection H as <-. nra. }
  step_bind.
  destruct (Py.gt P 0); step_bind;
    (destruct (Rle_lt_dec m 0) as [Hm0 | Hm0];
     [ rewrite (gt_false m 0) by assumption; cbn [andb]; step_bind;
       intros H; injection H as <-;
       specialize (Hlump _ eq_refl); replace m with 0 by lra; lra
     | rewrite (gt_true m 0) by assumption; cbn [andb];
       destruct (Z.ltb_spec 0 y) as [Hy0 | Hy0]; step_bind;
       [ rewrite contributions_loop; step_bind;
         intros H; injection H as <-; specialize (Hlump _ eq_refl);
         rewrite <- months_of_years by assumption;
         assert (Hsum : m * INR (List.length (Py.range 1 (y * 12 + 1))) <=
                        Rsum (contribution_after_tax y 0 m (q - 1))
                          (Py.range 1 (y * 12 + 1)));
         [ apply Rsum_at_least; intros month _; unfold contribution_after_tax;
           assert (1 <= (1 + (q - 1)) ^ Z.to_nat (y * 12 - month + 1))
             by (apply pow_R1_Rle; lra);
           nra
         | lra ]
       | intros H; injection H as <-; specialize (Hlump _ eq_refl);
         replace y with 0%Z by lia; simpl; lra ] ]).
Qed.

(** The annuity of the pre-tax valuations is worth at least its payments. *)
Lemma annuity_at_least_payments (m i : R) (n : nat) :
  0 <= m -> 0 < i -> m * INR n <= m * (((1 + i) ^ n - 1) / i).
Proof.
  intros Hm Hi. apply Rmult_le_compat_l; [assumption |].
  apply Rmult_le_reg_r with i; [assumption |].
  replace (((1 + i) ^ n - 1) / i * i) with ((1 + i) ^ n - 1) by (field; lra).
  pose proof (poly n i Hi). lra.
Qed.

Lemma keren_fv_at_least_paid_in (P r : R) (y : Z) (m : R) :
  0 <= P -> 0 < r -> (0 <= y)%Z -> 0 <= m ->
  exists v : R, calculate_keren_fv P r y m = Ok v /\ paid_in P m y <= v.
Proof.
  intros HP Hr Hy Hm. unfold paid_in.
  assert (Hg : 1 <= (1 + r) ^ Z.to_nat y) by (apply pow_R1_Rle; lra).
  destruct (Rle_lt_dec m 0) as [Hm0 | Hm0].
  { eexists. split; [apply keren_fv_lump; [assumption | left; assumption] |].
    replace m with 0 by lra. nra. }
  destruct (Z.le_gt_cases y 0) as [Hy0 | Hy0].
  { eexists. split; [apply keren_fv_lump; [assumption | right; assumption] |].
    replace y with 0%Z by lia. simpl. nra. }
  eexists. split; [apply keren_fv_annuity; (lia || lra) |].
  assert (Hi : 0 < Rpower (1 + r) (1 / 12) - 1).
  { pose proof (twelfth_root_above_one (1 + r) ltac:(lra)). lra. }
  pose proof (annuity_at_least_payments m _ (Z.to_nat (y * 12)) Hm Hi) as Hann.
  replace (INR (Z.to_nat (y * 12))) with (IZR (12 * y)) in Hann
    by (rewrite INR_IZR_INZ, Z2Nat.id by lia; f_equal; lia).
  nra.
Qed.

End Growth.

(** X13.  With a principal and a contribution that are not negative and a
    positive return, the fund value (and so the personal pre-tax value, the
    same function) is at least what was paid in: the principal and
    [12 * years] contributions. *)
Theorem X13_pretax_value_is_at_least_what_was_paid_in (P r : R) (y : Z) (m : R) :
  0 <= P -> 0 < r -> (0 <= y)%Z -> 0 <= m ->
  exists v : R,
    calculate_keren_fv P r y m = Ok v /\
    calculate_personal_fv_pretax P r y m = Ok v /\
    P + m * IZR (12 * y) <= v.
Proof.
  intros HP Hr Hy Hm.
  destruct (keren_fv_at_least_paid_in P r y m HP Hr Hy Hm) as (v & Hv & Hle).
  exists v. split; [exact Hv |]. split; [rewrite pretax_is_keren; exact Hv |].
  exact Hle.
Qed.

Lemma X13_pretax_value_is_at_least_what_was_paid_in_witness :
  0 <= 10000 /\ 0 < 0.0762 /\ (0 <= 20)%Z /\ 0 <= 1571 /\
  exists v : R,
    calculate_keren_fv 10000 0.0762 20 1571 = Ok v /\
    10000 + 1571 * IZR (12 * 20) <= v.
Proof.
  split; [lra |]. split; [lra |]. split; [lia |]. split; [lra |].
  destruct (X13_pretax_value_is_at_least_what_was_paid_in 10000 0.0762 20 1571)
    as (v & Hv & _ & Hle); try lra; try lia.
  exists v. split; [exact Hv | exact Hle].
Defined.

(** X14.  The post-tax value at a tax rate [t] is the mix, with weights [t]
    and [1 - t], of what was paid in and of the post-tax value at a zero tax
    rate: only the gain is taxed, and each contribution on its own gain. *)
Theorem X14_aftertax_value_mixes_paid_in_and_untaxed_value
  (P r : R) (y : Z) (tax m : R) :
  0 <= P -> -1 <= r -> (0 <= y)%Z -> 0 <= m ->
  exists v0 : R,
    calculate_personal_fv_aftertax P r y 0 m = Ok v0 /\
    calculate_personal_fv_aftertax P r y tax m =
    Ok (tax * (P + m * IZR (12 * y)) + (1 - tax) * v0).
Proof.
  intros HP Hr Hy Hm. apply aftertax_from_zero_tax; assumption.
Qed.

Lemma X14_aftertax_value_mixes_paid_in_and_untaxed_value_witness :
  0 <= 10000 /\ -1 <= 0.10 /\ (0 <= 20)%Z /\ 0 <= 1571 /\
  exists v0 : R,
    calculate_personal_fv_aftertax 10000 0.10 20 0 1571 = Ok v0 /\
    calculate_personal_fv_aftertax 10000 0.10 20 0.25 1571 =
    Ok (0.25 * (10000 + 1571 * IZR (12 * 20)) + (1 - 0.25) * v0).
Proof.
  split; [lra |]. split; [lra |]. split; [lia |]. split; [lra |].
  apply (X14_aftertax_value_mixes_paid_in_and_untaxed_value 10000 0.10 20 0.25 1571);
    lra || lia.
Defined.

(** X15.  With a return that is not negative, a higher tax rate never gives a
    higher post-tax value, and up to a tax rate of 1 the post-tax value is
    never below what was paid in. *)
Theorem X15_more_tax_is_never_more_money (P r : R) (y : Z) (tax1 tax2 m : R) :
  0 <= P -> 0 <= r -> (0 <= y)%Z -> 0 <= m ->
  tax1 <= tax2 -> tax2 <= 1 ->
  exists v1 v2 : R,
    calculate_personal_fv_aftertax P r y tax1 m = Ok v1 /\
    calculate_personal_fv_aftertax P r y tax2 m = Ok v2 /\
    P + m * IZR (12 * y) <= v2 /\ v2 <= v1.
Proof.
  intros HP Hr Hy Hm H12 H2.
  destruct (aftertax_from_zero_tax P r y tax1 m HP ltac:(lra) Hy Hm) as (v0 & Hv0 & Hv1).
  destruct (aftertax_from_zero_tax P r y tax2 m HP ltac:(lra) Hy Hm) as (v0' & Hv0' & Hv2).
  assert (v0' = v0) by congruence. subst v0'.
  pose proof (zero_tax_at_least_paid_in P r y m v0 HP Hr Hy Hm Hv0) as Hpaid.
  unfold paid_in in *.
  eexists. eexists. split; [exact Hv1 |]. split; [exact Hv2 |]. split; nra.
Qed.

Lemma X15_more_tax_is_never_more_money_witness :
  0 <= 10000 /\ 0 <= 0.10 /\ (0 <= 20)%Z /\ 0 <= 1571 /\ 0.25 <= 0.30 /\ 0.30 <= 1 /\
  exists v1 v2 : R,
    calculate_personal_fv_aftertax 10000 0.10 20 0.25 1571 = Ok v1 /\
    calculate_personal_fv_aftertax 10000 0.10 20 0.30 1571 = Ok v2 /\
    v2 <= v1.
Proof.
  split; [lra |]. split; [lra |]. split; [lia |]. split; [lra |].
  split; [lra |]. split; [lra |].
  destruct (X15_more_tax_is_never_more_money 10000 0.10 20 0.25 0.30 1571)
    as (v1 & v2 & H1 & H2 & _ & Hle); try lra; try lia.
  exists v1, v2. split; [exact H1 |]. split; [exact H2 | exact Hle].
Defined.

(** ** More on the break-even search *)

Section SearchMore.

Lemma nth_error_range_at (lo hi : Z) (j : nat) :
  (Z.of_nat j < hi - lo)%Z -> nth_error (Py.range lo hi) j = Some (lo + Z.of_nat j)%Z.
Proof.
  intros Hj. unfold Py.range. rewrite nth_error_map, nth_error_seq.
  destruct (Nat.ltb_spec j (Z.to_nat (hi - lo))) as [_ | Hge]; [reflexivity | lia].
Qed.

(** What [first_hit] answers: the first element at which the test holds,
    after elements at which it returns false; [None] after a list of such
    elements. *)
Lemma first_hit_some (yrs : list Z) (test : Z -> result bool) (y : Z) :
  Py.first_hit yrs test = Ok (Some y) ->
  exists i : nat,
    nth_error yrs i = Some y /\ test y = Ok true /\
    forall (j : nat) (z : Z), (j < i)%nat -> nth_error yrs j = Some z -> test z = Ok false.
Proof.
  induction yrs as [| yr yrs IH]; simpl; [discriminate |].
  destruct (test yr) as [[|] |] eqn:Htest; step_bind; intros H.
  - injection H as <-. exists O. split; [reflexivity |]. split; [assumption |].
    intros j z Hj. lia.
  - destruct (IH H) as (i & Hi & Hy & Hbefore).
    exists (S i). split; [exact Hi |]. split; [exact Hy |].
    intros [| j] z Hj Hz; simpl in Hz.
    + injection Hz as <-. assumption.
    + apply (Hbefore j); [lia | assumption].
  - discriminate.
Qed.

Lemma first_hit_none (yrs : list Z) (test : Z -> result bool) :
  Py.first_hit yrs test = Ok None -> forall z, In z yrs -> test z = Ok false.
Proof.
  induction yrs as [| yr yrs IH]; simpl; [contradiction |].
  destruct (test yr) as [[|] |] eqn:Htest; step_bind; intros H; try discriminate.
  intros z [<- | Hz]; [assumption | apply IH; assumption].
Qed.

Lemma first_hit_app (xs ys : list Z) (test : Z -> result bool) :
  Py.first_hit (xs ++ ys) test =
  match Py.first_hit xs test with
  | Ok None => Py.first_hit ys test
  | other => other
  end.
Proof.
  induction xs as [| x xs IH]; simpl; [reflexivity |].
  destruct (test x) as [[|] |]; step_bind; [reflexivity | apply IH | reflexivity].
Qed.

Variables (P knr pr tax m : R) (lockup : Z).

Lemma search_inv (max_years : Z) (be : option Z) :
  find_breakeven_year P knr pr tax m max_years lockup = Ok be ->
  exists kal : R,
    calculate_keren_fv P knr lockup m = Ok kal /\
    Py.first_hit (Py.range (lockup + 1) (max_years + 1))
      (personal_reaches_keren P knr pr tax m lockup kal) = Ok be.
Proof.
  unfold find_breakeven_year.
  destruct (calculate_keren_fv P knr lockup m) as [kal |]; [step_bind | discriminate].
  intros H. exists kal. split; [reflexivity | exact H].
Qed.

Lemma search_first (max_years y : Z) :
  find_breakeven_year P knr pr tax m max_years lockup = Ok (Some y) ->
  exists kal : R,
    calculate_keren_fv P knr lockup m = Ok kal /\
    (lockup < y <= max_years)%Z /\
    personal_reaches_keren P knr pr tax m lockup kal y = Ok true /\
    forall y' : Z, (lockup < y' < y)%Z ->
      personal_reaches_keren P knr pr tax m lockup kal y' = Ok false.
Proof.
  intros H. destruct (search_inv _ _ H) as (kal & Hkal & Hhit).
  exists kal. split; [exact Hkal |].
  apply first_hit_some in Hhit. destruct Hhit as (i & Hi & Hy & Hbefore).
  pose proof (nth_error_range _ _ _ _ Hi) as Hyi.
  assert (Hin : In y (Py.range (lockup + 1) (max_years + 1)))
    by (eapply nth_error_In; exact Hi).
  apply in_range in Hin.
  split; [lia |]. split; [exact Hy |].
  intros y' Hy'. apply (Hbefore (Z.to_nat (y' - (lockup + 1)))); [lia |].
  rewrite nth_error_range_at by lia. f_equal. lia.
Qed.

Lemma search_none (max_years : Z) :
  find_breakeven_year P knr pr tax m max_years lockup = Ok None ->
  exists kal : R,
    calculate_keren_fv P knr lockup m = Ok kal /\
    forall y' : Z, (lockup < y' <= max_years)%Z ->
      personal_reaches_keren P knr pr tax m lockup kal y' = Ok false.
Proof.
  intros H. destruct (search_inv _ _ H) as (kal & Hkal & Hhit).
  exists kal. split; [exact Hkal |].
  intros y' Hy'. apply (first_hit_none _ _ Hhit). apply in_range. lia.
Qed.

(** A year that is found is found under every ceiling that is not below it. *)
Lemma search_ceiling (max_years max_years' y : Z) :
  find_breakeven_year P knr pr tax m max_years lockup = Ok (Some y) ->
  (y <= max_years')%Z ->
  find_breakeven_year P knr pr tax m max_years' lockup = Ok (Some y).
Proof.
  intros H Hy. destruct (search_inv _ _ H) as (kal & Hkal & Hhit).
  pose proof (find_breakeven_year_range _ _ _ _ _ _ _ _ H) as Hrange.
  unfold find_breakeven_year. rewrite Hkal. step_bind.
  destruct (Z.le_gt_cases max_years max_years') as [Hle | Hgt].
  - rewrite (range_split (lockup + 1) (max_years + 1) (max_years' + 1)) by lia.
    rewrite first_hit_app, Hhit. reflexivity.
  - rewrite (range_split (lockup + 1) (max_years' + 1) (max_years + 1)) in Hhit by lia.
    rewrite first_hit_app in Hhit.
    destruct (Py.first_hit (Py.range (lockup + 1) (max_years' + 1)) _)
      as [[y0 |] | e] eqn:Hfirst.
    + exact Hhit.
    + apply first_hit_in, in_range in Hhit. lia.
    + discriminate.
Qed.

End SearchMore.

(** X16.  A year that [find_breakeven_year] returns is after the lockup and
    within the ceiling, the personal path reaches the fund in it, and in no
    earlier year after the lockup; when it returns [None] the personal path
    reaches the fund in no year after the lockup up to the ceiling. *)
Theorem X16_breakeven_search_returns_the_first_year
  (P knr pr tax m : R) (max_years lockup : Z) (be : option Z) :
  find_breakeven_year P knr pr tax m max_years lockup = Ok be ->
  exists kal : R,
    calculate_keren_fv P knr lockup m = Ok kal /\
    match be with
    | Some y =>
        (lockup < y <= max_years)%Z /\
        personal_reaches_keren P knr pr tax m lockup kal y = Ok true /\
        forall y' : Z, (lockup < y' < y)%Z ->
          personal_reaches_keren P knr pr tax m lockup kal y' = Ok false
    | None =>
        forall y' : Z, (lockup < y' <= max_years)%Z ->
          personal_reaches_keren P knr pr tax m lockup kal y' = Ok false
    end.
Proof.
  intros H. destruct be as [y |].
  - apply search_first. assumption.
  - apply search_none. assumption.
Qed.

(** X17.  The year found does not depend on the ceiling: if
    [find_breakeven_year] returns a year under one ceiling, it returns the
    same year under every ceiling that is not below that year. *)
Theorem X17_breakeven_year_does_not_depend_on_the_ceiling
  (P knr pr tax m : R) (max_years max_years' lockup y : Z) :
  find_breakeven_year P knr pr tax m max_years lockup = Ok (Some y) ->
  (y <= max_years')%Z ->
  find_breakeven_year P knr pr tax m max_years' lockup = Ok (Some y).
Proof.
  intros H Hy. apply (search_ceiling P knr pr tax m lockup max_years); assumption.
Qed.

Lemma quick_search :
  find_breakeven_year 1000 0.05 0.10 0.25 0 2 1 = Ok (Some 2%Z).
Proof.
  destruct quick_scenario_runs as (res & Hres & Hbe & _).
  destruct (run_comparison_search quick_scenario res ltac:(cbn; lia) Hres)
    as [Hfind Hbe'].
  rewrite <- Hbe', Hbe in Hfind. exact Hfind.
Qed.

Lemma X16_breakeven_search_returns_the_first_year_witness :
  find_breakeven_year 1000 0.05 0.10 0.25 0 2 1 = Ok (Some 2%Z) /\
  exists kal : R,
    calculate_keren_fv 1000 0.05 1 0 = Ok kal /\
    (1 < 2 <= 2)%Z /\
    personal_reaches_keren 1000 0.05 0.10 0.25 0 1 kal 2 = Ok true.
Proof.
  split; [exact quick_search |].
  destruct (X16_breakeven_search_returns_the_first_year
              1000 0.05 0.10 0.25 0 2 1 (Some 2%Z) quick_search)
    as (kal & Hkal & Hrange & Hreach & _).
  exists kal. split; [exact Hkal |]. split; [exact Hrange | exact Hreach].
Defined.

Lemma X17_breakeven_year_does_not_depend_on_the_ceiling_witness :
  find_breakeven_year 1000 0.05 0.10 0.25 0 2 1 = Ok (Some 2%Z) /\
  (2 <= 50)%Z /\
  find_breakeven_year 1000 0.05 0.10 0.25 0 50 1 = Ok (Some 2%Z).
Proof.
  split; [exact quick_search |]. split; [lia |].
  apply (X17_breakeven_year_does_not_depend_on_the_ceiling
           1000 0.05 0.10 0.25 0 2 50 1 2 quick_search).
  lia.
Defined.

(** ** More on the sensitivity matrix and the heat map *)

(** X18.  Without personal returns there is no record, so the frame has no
    ["Personal Return"] column and [generate_sensitivity_matrix] raises
    [KeyError], whatever the other arguments. *)
Theorem X18_sensitivity_matrix_needs_a_personal_return
  (P knr : R) (tax_rates : list R) (m : R) (max_years lockup : Z) :
  generate_sensitivity_matrix P knr [] tax_rates m max_years lockup = Raise KeyError.
Proof. reflexivity. Qed.

Section Heatmap.

Variables (P knr m : R) (lockup : Z).
Hypothesis Hlockup : (0 <= lockup)%Z.

Lemma heatmap_value_range (pr tr : R) (be : option Z) :
  find_breakeven_year P knr pr tr m 50 lockup = Ok be ->
  (1 <= heatmap_value be <= 50)%Z.
Proof.
  intros H. destruct be as [y |]; [| simpl; lia].
  apply find_breakeven_year_range in H. unfold heatmap_value.
  replace (y =? 0)%Z with false by (symmetry; apply Z.eqb_neq; lia). lia.
Qed.

Lemma heatmap_row (pr : R) (trs : list R) (acc row : list Z) :
  Py.for_each trs
    (fun tr row =>
       be_year <- find_breakeven_year P knr pr tr m 50 lockup ;;
       Ok (row ++ [heatmap_value be_year])) acc = Ok row ->
  exists vs : list Z,
    row = acc ++ vs /\ List.length vs = List.length trs /\
    Forall (fun v => (1 <= v <= 50)%Z) vs.
Proof.
  revert acc. induction trs as [| tr trs IH]; intros acc H; simpl in H.
  - injection H as <-. exists []. rewrite app_nil_r. repeat split. constructor.
  - destruct (find_breakeven_year P knr pr tr m 50 lockup) as [be |] eqn:Hbe;
      [| discriminate].
    cbn [bind] in H. apply IH in H. destruct H as (vs & -> & Hlen & Hall).
    exists (heatmap_value be :: vs). rewrite <- app_assoc.
    split; [reflexivity |]. split; [simpl; congruence |].
    constructor; [apply (heatmap_value_range pr tr); assumption | assumption].
Qed.

Lemma heatmap_rows (prs trs : list R) (acc matrix : list (list Z)) :
  Py.for_each prs
    (fun pr matrix =>
       row <-
         Py.for_each trs
           (fun tr row =>
              be_year <- find_breakeven_year P knr pr tr m 50 lockup ;;
              Ok (row ++ [heatmap_value be_year]))
           [] ;;
       Ok (matrix ++ [row])) acc = Ok matrix ->
  exists rows : list (list Z),
    matrix = acc ++ rows /\ List.length rows = List.length prs /\
    Forall (fun row => List.length row = List.length trs /\
                       Forall (fun v => (1 <= v <= 50)%Z) row) rows.
Proof.
  revert acc. induction prs as [| pr prs IH]; intros acc H; simpl in H.
  - injection H as <-. exists []. rewrite app_nil_r. repeat split. constructor.
  - destruct (Py.for_each trs _ []) as [row |] eqn:Hrow; [| discriminate].
    cbn [bind] in H. apply IH in H. destruct H as (rows & -> & Hlen & Hall).
    apply heatmap_row in Hrow. destruct Hrow as (vs & -> & Hvs & Hok).
    exists (vs :: rows). rewrite <- app_assoc.
    split; [reflexivity |]. split; [simpl; congruence |].
    constructor; [split; assumption | assumption].
Qed.

Hypothesis Hknr : 0 < 1 + knr.
Hypothesis Hrate : m <= 0 \/ knr <> 0.

Lemma heatmap_returns (prs trs : list R) (acc : list (list Z)) :
  (forall pr, In pr prs -> 0 <= 1 + pr) ->
  exists matrix : list (list Z),
    Py.for_each prs
      (fun pr matrix =>
         row <-
           Py.for_each trs
             (fun tr row =>
                be_year <- find_breakeven_year P knr pr tr m 50 lockup ;;
                Ok (row ++ [heatmap_value be_year]))
             [] ;;
         Ok (matrix ++ [row])) acc = Ok matrix.
Proof.
  revert acc. induction prs as [| pr prs IH]; intros acc Hprs; simpl.
  - eexists. reflexivity.
  - assert (Hrow : forall row0, exists row,
      Py.for_each trs
        (fun tr row =>
           be_year <- find_breakeven_year P knr pr tr m 50 lockup ;;
           Ok (row ++ [heatmap_value be_year])) row0 = Ok row).
    { assert (Hpr : 0 <= 1 + pr) by (apply Hprs; left; reflexivity).
      clear IH. induction trs as [| tr trs IHt]; intros row0; simpl.
      + eexists. reflexivity.
      + destruct (find_breakeven_year_returns P knr pr tr m 50 lockup
                    Hlockup Hknr Hpr Hrate) as [be ->].
        step_bind. apply IHt. }
    destruct (Hrow []) as [row ->]. step_bind.
    apply IH. intros z Hz. apply Hprs. right. assumption.
Qed.

End Heatmap.

(** X19.  The matrix of the heat map has one row per personal return and, in
    every row, one value per tax rate (repeated tax rates included), each a
    year from 1 to 50, for a lockup that is not negative. *)
Theorem X19_heatmap_matrix_is_a_full_grid
  (P knr m : R) (personal_returns tax_rates : option (list R)) (lockup : Z)
  (matrix : list (list Z)) :
  (0 <= lockup)%Z ->
  heatmap_matrix P knr m personal_returns tax_rates lockup = Ok matrix ->
  List.length matrix =
    List.length (or_default personal_returns default_personal_returns) /\
  Forall (fun row =>
            List.length row = List.length (or_default tax_rates default_tax_rates) /\
            Forall (fun v => (1 <= v <= 50)%Z) row) matrix.
Proof.
  intros Hlock H. unfold heatmap_matrix in H.
  apply (heatmap_rows P knr m lockup Hlock) in H.
  destruct H as (rows & -> & Hlen & Hall). split; assumption.
Qed.

Lemma X19_heatmap_matrix_is_a_full_grid_witness :
  exists matrix : list (list Z),
    (0 <= 10)%Z /\
    heatmap_matrix 0 0.0762 1571 None (Some [0.25; 0.25]) 10 = Ok matrix /\
    List.length matrix = 8%nat /\
    Forall (fun row => List.length row = 2%nat /\
                       Forall (fun v => (1 <= v <= 50)%Z) row) matrix.
Proof.
  assert (Hlock : (0 <= 10)%Z) by lia.
  destruct (heatmap_returns 0 0.0762 1571 10 Hlock ltac:(lra) ltac:(right; lra)
              default_personal_returns [0.25; 0.25] []) as [matrix Hm].
  { intros pr Hin. unfold default_personal_returns in Hin. simpl in Hin.
    repeat (destruct Hin as [<- | Hin]; [lra |]). contradiction. }
  exists matrix. split; [exact Hlock |]. split; [exact Hm |].
  exact (X19_heatmap_matrix_is_a_full_grid 0 0.0762 1571 None (Some [0.25; 0.25]) 10
           matrix Hlock Hm).
Defined.

Lemma digits_below_fifty (v : Z) :
  (1 <= v < 50)%Z -> Fmt.digits v <> ">50"%string.
Proof.
  intros Hv.
  assert (Hall : forallb (fun z => negb (String.eqb (Fmt.digits z) ">50"))
                   (Py.range 1 50) = true) by (vm_compute; reflexivity).
  rewrite forallb_forall in Hall.
  specialize (Hall v ltac:(apply in_range; lia)).
  apply negb_true_iff, String.eqb_neq in Hall. exact Hall.
Qed.

(** X20.  The text on a cell of the heat map is [">50"] exactly when the
    search found no year or found the year 50: a break-even in year 50 reads
    as none within 50 years. *)
Theorem X20_heatmap_shows_year_fifty_as_beyond
  (P knr pr tr m : R) (lockup : Z) (be : option Z) :
  (0 <= lockup)%Z ->
  find_breakeven_year P knr pr tr m 50 lockup = Ok be ->
  (heatmap_text (heatmap_value be) = ">50"%string <-> be = None \/ be = Some 50%Z).
Proof.
  intros Hlock H. destruct be as [y |].
  - apply find_breakeven_year_range in H. unfold heatmap_value, heatmap_text.
    replace (y =? 0)%Z with false by (symmetry; apply Z.eqb_neq; lia).
    destruct (Z.ltb_spec y 50) as [Hlt | Hge].
    + split.
      * intros Htext. exfalso. apply (digits_below_fifty y); [lia | exact Htext].
      * intros [Hn | Hs]; [discriminate | injection Hs as ->; lia].
    + split; [| reflexivity]. intros _. right. f_equal. lia.
  - split; [intros _; left; reflexivity | reflexivity].
Qed.

Lemma X20_heatmap_shows_year_fifty_as_beyond_witness :
  (0 <= 1)%Z /\
  find_breakeven_year 1000 0.05 0.10 0.25 0 50 1 = Ok (Some 2%Z) /\
  (heatmap_text (heatmap_value (Some 2%Z)) = ">50"%string <->
   Some 2%Z = None \/ Some 2%Z = Some 50%Z).
Proof.
  assert (Hlock : (0 <= 1)%Z) by lia.
  assert (Hfind : find_breakeven_year 1000 0.05 0.10 0.25 0 50 1 = Ok (Some 2%Z)).
  { apply (search_ceiling 1000 0.05 0.10 0.25 0 1 2 50 2 quick_search). lia. }
  split; [exact Hlock |]. split; [exact Hfind |].
  exact (X20_heatmap_shows_year_fifty_as_beyond 1000 0.05 0.10 0.25 0 1 (Some 2%Z)
           Hlock Hfind).
Defined.

(** ** Edges of the valuations and of the search *)

(** X21.  At zero years no rate is looked at: both pre-tax valuations return
    the principal for every rate and every monthly contribution (also at a
    zero rate, where positive years raise), and the post-tax valuation returns
    the principal when it is positive and 0 when it is not. *)
Theorem X21_zero_years_return_the_principal (P r tax m : R) :
  (exists v : R, calculate_keren_fv P r 0 m = Ok v /\ v = P) /\
  (exists v : R, calculate_personal_fv_pretax P r 0 m = Ok v /\ v = P) /\
  (exists v : R,
     calculate_personal_fv_aftertax P r 0 tax m = Ok v /\
     v = if Py.gt P 0 then P else 0).
Proof.
  assert (Hk : exists v : R, calculate_keren_fv P r 0 m = Ok v /\ v = P).
  { eexists. split; [apply keren_fv_lump; [lia | right; lia] |]. simpl. lra. }
  split; [exact Hk |]. split; [rewrite pretax_is_keren; exact Hk |].
  unfold calculate_personal_fv_aftertax.
  rewrite pow_int_nonneg by lia.
  replace (Py.gt m 0 && (0 <? 0)%Z) with false by (symmetry; apply andb_false_r).
  destruct (Py.gt P 0); step_bind; eexists; (split; [reflexivity |]); simpl; lra.
Qed.

(** X22.  With a ceiling that is not above the lockup there is no year to
    search: [find_breakeven_year] values the fund at the lockup and then
    returns [None]; it raises exactly what that valuation raises. *)
Theorem X22_empty_search_values_the_fund_and_returns_none
  (P knr pr tax m : R) (max_years lockup : Z) :
  (max_years <= lockup)%Z ->
  find_breakeven_year P knr pr tax m max_years lockup =
  (kal <- calculate_keren_fv P knr lockup m ;; Ok None).
Proof.
  intros Hle.
  destruct (calculate_keren_fv P knr lockup m) as [kal | e] eqn:Hkal.
  - step_bind. apply (find_breakeven_year_empty P knr pr tax m max_years lockup kal);
      assumption.
  - step_bind. apply find_breakeven_year_raises. assumption.
Qed.

Lemma X22_empty_search_values_the_fund_and_returns_none_witness :
  (10 <= 10)%Z /\
  find_breakeven_year 0 0.0762 0.10 0.25 1571 10 10 =
  (kal <- calculate_keren_fv 0 0.0762 10 1571 ;; Ok None).
Proof.
  split; [lia |].
  apply (X22_empty_search_values_the_fund_and_returns_none 0 0.0762 0.10 0.25 1571 10 10).
  lia.
Defined.

(** X23.  The loop of the post-tax valuation lets every contribution grow one
    month longer than the annuity formula of the pre-tax valuation does: at a
    zero tax rate, for a return above -100% and not zero, at least one year
    and a positive contribution, the post-tax value is the pre-tax value plus
    [m * ((1 + r) ** years - 1)]. *)
Theorem X23_untaxed_value_is_one_month_ahead_of_the_pretax_value
  (P r : R) (y : Z) (m : R) :
  0 <= P -> -1 < r -> r <> 0 -> (1 <= y)%Z -> 0 < m ->
  exists a b : R,
    calculate_personal_fv_pretax P r y m = Ok a /\
    calculate_personal_fv_aftertax P r y 0 m = Ok b /\
    b = a + m * ((1 + r) ^ Z.to_nat y - 1).
Proof.
  intros HP Hr Hr0 Hy Hm.
  destruct (zero_tax_gap P r y m HP Hr Hr0 Hy Hm) as (a & b & Ha & Hb & Hgap).
  exists a, b. split; [exact Ha |]. split; [exact Hb |]. lra.
Qed.

Lemma X23_untaxed_value_is_one_month_ahead_of_the_pretax_value_witness :
  0 <= 0 /\ -1 < 0.10 /\ 0.10 <> 0 /\ (1 <= 10)%Z /\ 0 < 1571 /\
  exists a b : R,
    calculate_personal_fv_pretax 0 0.10 10 1571 = Ok a /\
    calculate_personal_fv_aftertax 0 0.10 10 0 1571 = Ok b /\
    b = a + 1571 * ((1 + 0.10) ^ Z.to_nat 10 - 1).
Proof.
  split; [lra |]. split; [lra |]. split; [lra |]. split; [lia |]. split; [lra |].
  apply (X23_untaxed_value_is_one_month_ahead_of_the_pretax_value 0 0.10 10 1571);
    lra || lia.
Defined.

(** ** The returns the result records *)



(** X25.  At a return of exactly zero the two valuations of the personal
    account part: the post-tax valuation returns what was paid in, whatever
    the tax rate, and the pre-tax valuation raises [ZeroDivisionError] as soon
    as there are contributions and years. *)
Theorem X25_zero_return_aftertax_returns_pretax_raises
  (P : R) (y : Z) (tax m : R) :
  0 <= P -> (0 <= y)%Z -> 0 <= m ->
  calculate_personal_fv_aftertax P 0 y tax m = Ok (P + m * IZR (12 * y)) /\
  (0 < m -> (0 < y)%Z ->
   calculate_personal_fv_pretax P 0 y m = Raise ZeroDivisionError).
Proof.
  intros HP Hy Hm. split.
  - unfold calculate_personal_fv_aftertax.
    rewrite pow_int_nonneg by assumption.
    replace (1 + 0) with 1 by lra. rewrite pow_float_one, pow1.
    assert (Hlump :
      (if Py.gt P 0 then Ok (P + (P * 1 - P) * (1 - tax)) else Ok 0) = Ok P).
    { destruct (Rle_lt_dec P 0) as [HP0 | HP0].
      - rewrite gt_false by assumption. f_equal. lra.
      - rewrite gt_true by assumption. f_equal. lra. }
    step_bind. rewrite Hlump. step_bind.
    destruct (Rle_lt_dec m 0) as [Hm0 | Hm0].
    { rewrite gt_false by assumption. cbn [andb]. step_bind.
      f_equal. replace m with 0 by lra. lra. }
    rewrite gt_true by assumption. cbn [andb].
    destruct (Z.ltb_spec 0 y) as [Hy0 | Hy0].
    + rewrite contributions_loop. step_bind. f_equal.
      rewrite (Rsum_ext_in _ _ (fun _ => m)).
      * rewrite Rsum_const, months_of_years by assumption. lra.
      * intros month _. unfold contribution_after_tax.
        replace (1 + (1 - 1)) with 1 by lra. rewrite pow1. ring.
    + step_bind. f_equal. replace y with 0%Z by lia. simpl. lra.
  - intros Hm0 Hy0. rewrite pretax_is_keren.
    apply zero_annual_rate_raises; assumption.
Qed.

Lemma X25_zero_return_aftertax_returns_pretax_raises_witness :
  0 <= 0 /\ (0 <= 10)%Z /\ 0 <= 1571 /\
  calculate_personal_fv_aftertax 0 0 10 0.25 1571 = Ok (0 + 1571 * IZR (12 * 10)) /\
  calculate_personal_fv_pretax 0 0 10 1571 = Raise ZeroDivisionError.
Proof.
  split; [lra |]. split; [lia |]. split; [lra |].
  destruct (X25_zero_return_aftertax_returns_pretax_raises 0 10 0.25 1571)
    as [Hafter Hpre]; [lra | lia | lra |].
  split; [exact Hafter |]. apply Hpre; [lra | lia].
Defined.
